(** * FTRT Cosmic Evolution Explorer: the numeric core

    A shallow embedding of the statistics, correlation, date and tidal-index
    utilities of the dashboard, and the properties its specification states
    about them.

    JavaScript numbers are modelled as the real numbers extended with the
    two infinities and NaN (module [JS]): arithmetic on finite values is
    exact (binary64 rounding, overflow and underflow are not modelled), and
    the operations that leave the finite range (division by zero, the square
    root of a negative number, arithmetic on [undefined]) behave as in
    ECMAScript.  Zero carries no sign: a quotient by zero takes the sign of
    its numerator, as it does for the positive zero of IEEE 754. *)

From Stdlib Require Import Reals ZArith List String Bool Lia Lra Psatz.
From Stdlib Require Import Sorted Permutation.
Import ListNotations.

Open Scope R_scope.

(** ** JavaScript values *)

Module JS.

(** A Number: exact reals, the infinities and NaN. *)
Inductive num : Type :=
| NaN
| PInf
| NInf
| Fin (r : R).

(** What an array slot or an array read can hold. *)
Inductive value : Type :=
| Num (n : num)
| Null
| Undefined.

Definition array := list value.

(** ToNumber, on the values above. *)
Definition toNumber (v : value) : num :=
  match v with
  | Num n => n
  | Null => Fin 0
  | Undefined => NaN
  end.

Inductive error : Type :=
| Error (message : string)
| TypeError
| RangeError.

(** How a call completes: normally with a value, or abruptly with a thrown
    error. *)
Inductive completion (A : Type) : Type :=
| Normal (a : A)
| Throw (e : error).

Arguments Normal {A} a.
Arguments Throw {A} e.

Definition bind {A B} (c : completion A) (k : A -> completion B)
  : completion B :=
  match c with
  | Normal a => k a
  | Throw e => Throw e
  end.


Definition inf (positive : bool) : num := if positive then PInf else NInf.

Definition neg (x : num) : num :=
  match x with
  | NaN => NaN
  | PInf => NInf
  | NInf => PInf
  | Fin a => Fin (- a)
  end.

Definition add (x y : num) : num :=
  match x, y with
  | NaN, _ | _, NaN => NaN
  | PInf, NInf | NInf, PInf => NaN
  | PInf, _ | _, PInf => PInf
  | NInf, _ | _, NInf => NInf
  | Fin a, Fin b => Fin (a + b)
  end.

Definition sub (x y : num) : num := add x (neg y).

(** An infinity of the given sign times a finite factor. *)
Definition inf_times (positive : bool) (r : R) : num :=
  if Req_dec_T r 0 then NaN
  else if Rlt_dec 0 r then inf positive else inf (negb positive).

Definition mul (x y : num) : num :=
  match x, y with
  | NaN, _ | _, NaN => NaN
  | Fin a, Fin b => Fin (a * b)
  | Fin a, PInf | PInf, Fin a => inf_times true a
  | Fin a, NInf | NInf, Fin a => inf_times false a
  | PInf, PInf | NInf, NInf => PInf
  | PInf, NInf | NInf, PInf => NInf
  end.

Definition div (x y : num) : num :=
  match x, y with
  | NaN, _ | _, NaN => NaN
  | Fin a, Fin b =>
      if Req_dec_T b 0 then
        if Req_dec_T a 0 then NaN
        else if Rlt_dec 0 a then PInf else NInf
      else Fin (a / b)
  | Fin _, PInf | Fin _, NInf => Fin 0
  | PInf, Fin b => if Rle_dec 0 b then PInf else NInf
  | NInf, Fin b => if Rle_dec 0 b then NInf else PInf
  | _, _ => NaN
  end.

(** Math.sqrt *)
Definition Math_sqrt (x : num) : num :=
  match x with
  | NaN | NInf => NaN
  | PInf => PInf
  | Fin a => if Rlt_dec a 0 then NaN else Fin (sqrt a)
  end.

(** Math.floor and Math.ceil *)
Definition Math_floor (x : num) : num :=
  match x with
  | Fin a => Fin (IZR (Zfloor a))
  | _ => x
  end.

Definition Math_ceil (x : num) : num :=
  match x with
  | Fin a => Fin (IZR (Zceil a))
  | _ => x
  end.

(** Math.cos *)
Definition Math_cos (x : num) : num :=
  match x with
  | Fin a => Fin (cos a)
  | _ => NaN
  end.

(** Math.pow with a literal natural exponent, the only use the sources
    make of it. *)
Definition Math_pow (x : num) (n : nat) : num :=
  match n with
  | O => Fin 1
  | S _ =>
      match x with
      | NaN => NaN
      | PInf => PInf
      | NInf => if Nat.even n then PInf else NInf
      | Fin a => Fin (a ^ n)
      end
  end.

(** The relational operators [<] and [>]: false as soon as NaN is
    involved. *)
Definition ltb (x y : num) : bool :=
  match x, y with
  | NaN, _ | _, NaN => false
  | _, NInf | PInf, _ => false
  | NInf, _ | _, PInf => true
  | Fin a, Fin b => if Rlt_dec a b then true else false
  end.

Definition gtb (x y : num) : bool := ltb y x.

(** Strict equality [===] between Numbers. *)
Definition eqb (x y : num) : bool :=
  match x, y with
  | PInf, PInf | NInf, NInf => true
  | Fin a, Fin b => if Req_dec_T a b then true else false
  | _, _ => false
  end.

(** Math.min and Math.max of two Numbers, and of a spread array. *)
Definition min2 (x y : num) : num :=
  match x, y with
  | NaN, _ | _, NaN => NaN
  | _, _ => if ltb y x then y else x
  end.

Definition max2 (x y : num) : num :=
  match x, y with
  | NaN, _ | _, NaN => NaN
  | _, _ => if ltb x y then y else x
  end.

Definition Math_min (data : array) : num :=
  fold_left (fun acc v => min2 acc (toNumber v)) data PInf.

Definition Math_max (data : array) : num :=
  fold_left (fun acc v => max2 acc (toNumber v)) data NInf.

(** The array index a Number denotes as a property key, if any. *)
Definition index (x : num) : option nat :=
  match x with
  | Fin a =>
      let z := Zfloor a in
      if Req_dec_T (IZR z) a then
        if (0 <=? z)%Z then Some (Z.to_nat z) else None
      else None
  | _ => None
  end.

(** [a[i]]: reading outside the array gives [undefined]. *)
Definition get (a : array) (i : num) : value :=
  match index i with
  | Some k => nth k a Undefined
  | None => Undefined
  end.

(** [data.length] as a Number. *)
Definition len (data : array) : num := Fin (INR (List.length data)).

(** An array of finite numbers. *)
Definition reals (xs : list R) : array := map (fun r => Num (Fin r)) xs.

(** [[...data].sort((a, b) => a - b)]: a stable sort by the sign of the
    comparator, written as an insertion sort: an element moves behind the
    ones the comparator ranks strictly before it. *)
Fixpoint insert (v : value) (sorted : array) : array :=
  match sorted with
  | [] => [v]
  | w :: rest =>
      if gtb (sub (toNumber v) (toNumber w)) (Fin 0)
      then w :: insert v rest
      else v :: sorted
  end.

Definition sort (data : array) : array :=
  fold_right insert [] data.

Declare Scope js_scope.
Delimit Scope js_scope with js.
Bind Scope js_scope with num.
Coercion Fin : R >-> num.
Notation "x + y" := (add x y) : js_scope.
Notation "x - y" := (sub x y) : js_scope.
Notation "x * y" := (mul x y) : js_scope.
Notation "x / y" := (div x y) : js_scope.
Notation "x <? y" := (ltb x y) (at level 70) : js_scope.
Notation "x >? y" := (gtb x y) (at level 70) : js_scope.
Notation "x === y" := (eqb x y) (at level 70) : js_scope.
Notation "x <- c ;; k" := (bind c (fun x => k))
  (at level 61, c at next level, right associativity) : js_scope.

(** A Date at day resolution: the local calendar fields the getters
    return.  The month is zero-based, as in [getMonth]. *)
Record Date : Type := mkDate {
  getFullYear : Z;
  getMonth : Z;
  getDate : Z
}.

Definition isLeap (y : Z) : bool :=
  ((y mod 4 =? 0) && negb (y mod 100 =? 0) || (y mod 400 =? 0))%Z.

Definition daysInMonth (y m : Z) : Z :=
  (if m =? 1 then (if isLeap y then 29 else 28)
   else if (m =? 3) || (m =? 5) || (m =? 8) || (m =? 10) then 30
   else 31)%Z.

(** A date of the calendar. *)
Definition validDate (d : Date) : Prop :=
  (0 <= getMonth d <= 11 /\
   1 <= getDate d <= daysInMonth (getFullYear d) (getMonth d))%Z.

(** Day overflow of the Date constructor: days before the first or after
    the last of the month move into the neighbouring months. *)
Fixpoint carryDays (fuel : nat) (y m d : Z) : Date :=
  match fuel with
  | O => mkDate y m d
  | S fuel' =>
      if (d <? 1)%Z then
        let y' := (if m =? 0 then y - 1 else y)%Z in
        let m' := (if m =? 0 then 11 else m - 1)%Z in
        carryDays fuel' y' m' (d + daysInMonth y' m')
      else if (daysInMonth y m <? d)%Z then
        let y' := (if m =? 11 then y + 1 else y)%Z in
        let m' := (if m =? 11 then 0 else m + 1)%Z in
        carryDays fuel' y' m' (d - daysInMonth y m)
      else mkDate y m d
  end.

(** [new Date(year, monthIndex, day)]: a year from 0 to 99 stands for
    1900 + year; month and day overflow are carried.  The range limit of
    time values is not modelled. *)
Definition newDate (year monthIndex day : Z) : Date :=
  let yr := (if (0 <=? year) && (year <=? 99) then 1900 + year else year)%Z in
  let ym := (yr + monthIndex / 12)%Z in
  let mn := (monthIndex mod 12)%Z in
  carryDays (S (Z.to_nat (Z.abs day))) ym mn day.

(** Math.abs *)
Definition Math_abs (x : num) : num :=
  match x with
  | NaN => NaN
  | PInf | NInf => PInf
  | Fin a => Fin (Rabs a)
  end.


(** The relational operator [>=]. *)
Definition geb (x y : num) : bool :=
  match x, y with
  | NaN, _ | _, NaN => false
  | _, _ => negb (ltb x y)
  end.

(** The remainder operator [%]: the quotient is truncated toward zero, so
    the result has the sign of the dividend. *)
Definition trunc (a : R) : Z := if Rle_dec 0 a then Zfloor a else Zceil a.

Definition rem (x y : num) : num :=
  match x, y with
  | Fin a, Fin b =>
      if Req_dec_T b 0 then NaN else Fin (a - b * IZR (trunc (a / b)))
  | Fin a, PInf | Fin a, NInf => Fin a
  | _, _ => NaN
  end.


(** Two values name the same property of an object: their strings are
    equal. *)
Definition sameKey (v w : value) : bool :=
  match v, w with
  | Num NaN, Num NaN => true
  | Num a, Num b => eqb a b
  | Null, Null => true
  | Undefined, Undefined => true
  | _, _ => false
  end.

(** [a[i] = v]: writing past the end extends the array, the places in
    between reading as [undefined]. *)
Fixpoint setAt (a : array) (i : nat) (v : value) : array :=
  match a, i with
  | [], O => [v]
  | [], S i' => Undefined :: setAt [] i' v
  | _ :: rest, O => v :: rest
  | w :: rest, S i' => w :: setAt rest i' v
  end.

(** [list.sort(cmp)] for any elements, as [sort] above. *)
Fixpoint insertWith {A} (cmp : A -> A -> num) (v : A) (sorted : list A)
  : list A :=
  match sorted with
  | [] => [v]
  | w :: rest =>
      if gtb (cmp v w) (Fin 0) then w :: insertWith cmp v rest
      else v :: sorted
  end.

Definition sortWith {A} (cmp : A -> A -> num) (data : list A) : list A :=
  fold_right (insertWith cmp) [] data.

End JS.

(** ** src/utils/dateHelpers.js *)

Module DateHelpers.
Import JS.

Local Open Scope Z_scope.

(** The operands are integers, so [Math.floor(p / q)] is the floor
    division of [Z]. *)
Definition dateToJulianDay (date : Date) : Z :=
  let a := (14 - (getMonth date + 1)) / 12 in
  let y := getFullYear date + 4800 - a in
  let m := (getMonth date + 1) + 12 * a - 3 in
  let jdn :=
    getDate date +
    (153 * m + 2) / 5 +
    365 * y +
    y / 4 -
    y / 100 +
    y / 400 -
    32045 in
  jdn.

Definition julianDayToDate (jd : Z) : Date :=
  let a := jd + 32044 in
  let b := (4 * a + 3) / 146097 in
  let c := a - (146097 * b) / 4 in
  let d := (4 * c + 3) / 1461 in
  let e := c - (1461 * d) / 4 in
  let m := (5 * e + 2) / 153 in
  let day := e - (153 * m + 2) / 5 + 1 in
  let month := m + 3 - 12 * (m / 10) in
  let year := 100 * b + d - 4800 + m / 10 in
  newDate year (month - 1) day.

Record geologicalPeriod : Type := mkPeriod {
  period_name : string;
  period_start : R;
  period_end : R
}.

Definition periods : list geologicalPeriod :=
  [ mkPeriod "Cuaternario" 0 2.6;
    mkPeriod "Neógeno" 2.6 23;
    mkPeriod "Paleógeno" 23 66;
    mkPeriod "Cretácico" 66 145;
    mkPeriod "Jurásico" 145 201;
    mkPeriod "Triásico" 201 252;
    mkPeriod "Pérmico" 252 299;
    mkPeriod "Carbonífero" 299 359;
    mkPeriod "Devónico" 359 419;
    mkPeriod "Silúrico" 419 444;
    mkPeriod "Ordovícico" 444 485;
    mkPeriod "Cámbrico" 485 541 ]%string.

(** [periods.find(...) || null]: [None] stands for [null]. *)
Definition getGeologicalPeriod (ageInMa : num) : option geologicalPeriod :=
  find (fun p => geb ageInMa (Fin (period_start p))
                 && ltb ageInMa (Fin (period_end p)))
       periods.

(** [period1 && period2 && period1.name === period2.name]: [null] when a
    period is missing, a boolean otherwise. *)
Definition isSamePeriod (age1 age2 : num) : option bool :=
  match getGeologicalPeriod age1, getGeologicalPeriod age2 with
  | Some period1, Some period2 =>
      Some (String.eqb (period_name period1) (period_name period2))
  | _, _ => None
  end.

End DateHelpers.

(** ** utils/statistics.js *)

Module Statistics.
Import JS.

Local Open Scope js_scope.

(** [data.reduce((sum, val) => sum + val, 0)] *)
Definition sum (data : array) : num :=
  fold_left (fun sum val => sum + toNumber val) data (Fin 0).

Definition mean (data : array) : num :=
  match data with
  | [] => Fin 0
  | _ => sum data / len data
  end.

Definition standardDeviation (data : array) (sample : bool) : num :=
  match data with
  | [] => Fin 0
  | _ =>
      let avg := mean data in
      let squareDiffs :=
        map (fun val => Num (Math_pow (toNumber val - avg) 2)) data in
      let divisor := if sample then len data - Fin 1 else len data in
      Math_sqrt (mean squareDiffs * (len data / divisor))
  end.


(** No operation of [percentile] can throw: it is a total function to
    Numbers. *)
Definition percentile (data : array) (percentile : num) : num :=
  match data with
  | [] => Fin 0
  | _ =>
      let sorted := sort data in
      let index := (percentile / Fin 100) * (len sorted - Fin 1) in
      let lower := Math_floor index in
      let upper := Math_ceil index in
      let weight := index - lower in
      toNumber (get sorted lower) * (Fin 1 - weight)
      + toNumber (get sorted upper) * weight
  end.

Record bin : Type := mkBin {
  bin_min : num;
  bin_max : num;
  count : nat;
  values : array
}.

(** [histogram[binIndex].count++; histogram[binIndex].values.push(val)]:
    reading a property of [undefined] throws a TypeError. *)
Definition record (histogram : list bin) (binIndex : num) (val : value)
  : completion (list bin) :=
  match index binIndex with
  | None => Throw TypeError
  | Some k =>
      match nth_error histogram k with
      | None => Throw TypeError
      | Some b =>
          Normal
            (firstn k histogram
             ++ mkBin (bin_min b) (bin_max b) (S (count b)) (values b ++ [val])
             :: skipn (S k) histogram)
      end
  end.

(** [bins] is the length of an array, a natural number. *)
Definition histogram (data : array) (bins : nat) : completion (list bin) :=
  let min := Math_min data in
  let max := Math_max data in
  let binWidth := (max - min) / Fin (INR bins) in
  let histogram :=
    map (fun i =>
           mkBin (min + Fin (INR i) * binWidth)
                 (min + Fin (INR i + 1) * binWidth)
                 0 [])
        (seq 0 bins) in
  fold_left
    (fun acc val =>
       histogram <- acc ;;
       let binIndex :=
         min2 (Math_floor ((toNumber val - min) / binWidth))
              (Fin (INR bins) - Fin 1) in
       record histogram binIndex val)
    data (Normal histogram).


(** The [frequency] object of [mode], its keys in insertion order. *)
Fixpoint frequencyOf (frequency : list (value * nat)) (val : value) : nat :=
  match frequency with
  | [] => 0
  | (k, c) :: rest => if sameKey k val then c else frequencyOf rest val
  end.

Fixpoint setFrequency (frequency : list (value * nat)) (val : value)
  (c : nat) : list (value * nat) :=
  match frequency with
  | [] => [(val, c)]
  | (k, d) :: rest =>
      if sameKey k val then (k, c) :: rest
      else (k, d) :: setFrequency rest val c
  end.

Definition mode (data : array) : value :=
  match data with
  | [] => Num (Fin 0)
  | first :: _ =>
      let '(_, _, modeValue) :=
        fold_left
          (fun '(frequency, maxFreq, modeValue) val =>
             let c := S (frequencyOf frequency val) in
             let frequency := setFrequency frequency val c in
             if (maxFreq <? c)%nat then (frequency, c, val)
             else (frequency, maxFreq, modeValue))
          data ([], 0%nat, first) in
      modeValue
  end.


Definition coefficientOfVariation (data : array) : num :=
  let avg := mean data in
  if avg === Fin 0 then Fin 0
  else (standardDeviation data true / avg) * Fin 100.


Record quartileRecord : Type := mkQuartiles {
  Q1 : num;
  Q2 : num;
  Q3 : num
}.

Definition quartiles (data : array) : quartileRecord :=
  mkQuartiles (percentile data (Fin 25)) (percentile data (Fin 50))
    (percentile data (Fin 75)).

Definition iqr (data : array) : num :=
  let q := quartiles data in
  Q3 q - Q1 q.

(** The indices of the outliers, as natural numbers. *)
Definition detectOutliers (data : array) (multiplier : num) : list nat :=
  let q := quartiles data in
  let iqrValue := iqr data in
  let lowerBound := Q1 q - multiplier * iqrValue in
  let upperBound := Q3 q + multiplier * iqrValue in
  filter
    (fun idx =>
       let val := toNumber (nth idx data Undefined) in
       (val <? lowerBound) || (val >? upperBound))
    (seq 0 (List.length data)).






Definition cumulativeSum (data : array) : array :=
  snd
    (fold_left
       (fun '(sum, out) val =>
          let sum := sum + toNumber val in
          (sum, out ++ [Num sum]))
       data (Fin 0, [])).



End Statistics.

(** ** utils/correlations.js *)

Module Correlations.
Import JS.

Local Open Scope js_scope.

(** The module's own [mean], without the guard for the empty array. *)
Definition mean (arr : array) : num :=
  fold_left (fun a b => a + toNumber b) arr (Fin 0) / len arr.

Definition pearsonCorrelation (x y : array) : completion num :=
  if negb (Nat.eqb (List.length x) (List.length y))
     || Nat.eqb (List.length x) 0
  then Throw (Error "Arrays must be non-empty and of equal length")
  else
    let n := List.length x in
    let meanX := mean x in
    let meanY := mean y in
    let '(numerator, denomX, denomY) :=
      fold_left
        (fun '(numerator, denomX, denomY) i =>
           let dx := toNumber (nth i x Undefined) - meanX in
           let dy := toNumber (nth i y Undefined) - meanY in
           (numerator + dx * dy, denomX + dx * dx, denomY + dy * dy))
        (seq 0 n) (Fin 0, Fin 0, Fin 0) in
    if (denomX === Fin 0) || (denomY === Fin 0) then Normal (Fin 0)
    else Normal (numerator / Math_sqrt (denomX * denomY)).

Record lagResult : Type := mkLagResult {
  lag : Z;
  correlation : num;
  dataPoints : nat
}.





(** [getRanks]: the elements with their positions, sorted by value; the
    rank of a position is one more than its place in that order. *)
Definition getRanks (arr : array) : array :=
  let sorted :=
    sortWith (fun a b => toNumber (fst a) - toNumber (fst b))
      (combine arr (seq 0 (List.length arr))) in
  fold_left
    (fun ranks '(item, rank) => setAt ranks (snd item) (Num (Fin (INR rank + 1))))
    (combine sorted (seq 0 (List.length sorted)))
    (repeat Undefined (List.length arr)).

Definition spearmanCorrelation (x y : array) : completion num :=
  if negb (Nat.eqb (List.length x) (List.length y))
     || Nat.eqb (List.length x) 0
  then Throw (Error "Arrays must be non-empty and of equal length")
  else
    let rankX := getRanks x in
    let rankY := getRanks y in
    pearsonCorrelation rankX rankY.

(** [reduce] without an initial value throws a TypeError on the empty
    array. *)
Definition findOptimalLag (crossCorrelationResults : list lagResult)
  : completion lagResult :=
  match crossCorrelationResults with
  | [] => Throw TypeError
  | first :: rest =>
      Normal
        (fold_left
           (fun max current =>
              if Math_abs (correlation current) >? Math_abs (correlation max)
              then current else max)
           rest first)
  end.







(** [minDistance] is an integer. *)
Definition detectPeaks (data : array) (threshold : num) (minDistance : Z)
  : list nat :=
  fold_left
    (fun peaks i =>
       let at_ k := toNumber (nth k data Undefined) in
       if (at_ i >? at_ (i - 1)%nat) && (at_ i >? at_ (i + 1)%nat)
          && (at_ i >? threshold)
       then
         match rev peaks with
         | [] => peaks ++ [i]
         | last :: _ =>
             if (minDistance <=? Z.of_nat i - Z.of_nat last)%Z
             then peaks ++ [i] else peaks
         end
       else peaks)
    (seq 1 (List.length data - 1 - 1)) [].








End Correlations.

(** ** utils/constants.js and services/ftrtCalculator.js *)

Module FTRT.
Import JS DateHelpers.

Definition GRAVITATIONAL_CONSTANT : R := 6.674e-11.
Definition SUN_RADIUS : R := 6.96e8.
Definition FTRT_REFERENCE_FORCE : R := 1e15.

Record planet : Type := mkPlanet {
  mass : R;
  semiMajorAxis : R;
  period : R;
  radius : R;
  color : string
}.

(** The table, in the order of its keys. *)
Definition PLANETS : list (string * planet) :=
  [ ("mercury", mkPlanet 3.301e23 57.91e9 87.97 2.4397e6 "#8C7853");
    ("venus", mkPlanet 4.867e24 108.2e9 224.7 6.0518e6 "#FFC649");
    ("earth", mkPlanet 5.972e24 149.6e9 365.25 6.371e6 "#4A90E2");
    ("mars", mkPlanet 6.417e23 227.9e9 686.98 3.3895e6 "#E27B58");
    ("jupiter", mkPlanet 1.898e27 778.5e9 4332.59 6.9911e7 "#C88B3A");
    ("saturn", mkPlanet 5.683e26 1433.5e9 10759.22 5.8232e7 "#FAD5A5");
    ("uranus", mkPlanet 8.681e25 2872.5e9 30688.5 2.5362e7 "#4FD0E0");
    ("neptune", mkPlanet 1.024e26 4495.1e9 60182 2.4622e7 "#4B70DD") ]%string.

(** An object with string keys, in insertion order. *)
Definition object (A : Type) := list (string * A).

(** [obj[key]] *)
Fixpoint prop {A} (obj : object A) (key : string) : option A :=
  match obj with
  | [] => None
  | (k, v) :: rest => if String.eqb k key then Some v else prop rest key
  end.

(** [obj[key] = v]: an existing key keeps its place. *)
Fixpoint setProp {A} (obj : object A) (key : string) (v : A) : object A :=
  match obj with
  | [] => [(key, v)]
  | (k, w) :: rest =>
      if String.eqb k key then (k, v) :: rest
      else (k, w) :: setProp rest key v
  end.

(** [Object.keys(obj)] *)
Definition keys {A} (obj : object A) : list string := map fst obj.

(** A force read from the [forces] object, as a Number. *)
Definition force (forces : object num) (planetName : string) : num :=
  match prop forces planetName with
  | Some f => f
  | None => NaN
  end.

Local Open Scope js_scope.

Definition calculatePlanetaryTidalForce (planetName : string)
  (julianDay : num) : num :=
  match prop PLANETS planetName with
  | None => Fin 0
  | Some planet =>
      let meanAnomaly := (Fin 2 * Fin PI * julianDay) / Fin (period planet) in
      let eccentricity := Fin 0.05 in
      let distance :=
        Fin (semiMajorAxis planet)
        * (Fin 1 + eccentricity * Math_cos meanAnomaly) in
      let tidalForce :=
        (Fin 2 * Fin GRAVITATIONAL_CONSTANT * Fin (mass planet)
         * Fin SUN_RADIUS)
        / Math_pow distance 3 in
      tidalForce
  end.

(** The snapshot; [date] stands for the ISO string of the date. *)
Record snapshot : Type := mkSnapshot {
  date : Date;
  julianDay : Z;
  totalForce : num;
  normalizedIndex : num;
  individualForces : object num;
  dominantPlanet : string;
  dominantForcePercentage : num
}.

(** [array.reduce(f)] without an initial value: a TypeError on the empty
    array. *)
Definition reduce {A} (f : A -> A -> A) (l : list A) : completion A :=
  match l with
  | [] => Throw TypeError
  | a :: rest => Normal (fold_left f rest a)
  end.

Definition calculateFTRT (date : Date) : completion snapshot :=
  let julianDay := dateToJulianDay date in
  let '(forces, totalForce) :=
    fold_left
      (fun '(forces, totalForce) planetName =>
         let force :=
           calculatePlanetaryTidalForce planetName (Fin (IZR julianDay)) in
         (setProp forces planetName force, totalForce + force))
      (keys PLANETS) ([], Fin 0) in
  dominantPlanet <-
    reduce (fun max planet =>
              if force forces planet >? force forces max then planet else max)
           (keys forces) ;;
  let normalizedIndex :=
    min2 (totalForce / Fin FTRT_REFERENCE_FORCE) (Fin 1) in
  Normal
    (mkSnapshot date julianDay totalForce normalizedIndex forces
       dominantPlanet
       ((force forces dominantPlanet / totalForce) * Fin 100)).

Inductive significance : Type := extreme | high | moderate.

Record peak : Type := mkPeak {
  peak_date : Date;
  peak_julianDay : Z;
  peak_index : num;
  peak_dominantPlanet : string;
  peak_type : string;
  peak_significance : significance
}.

(** The body of the loop of [detectFTRTPeaks] at position [i]: the peaks
    it pushes.  The loop only visits positions whose two neighbours
    exist. *)
Definition peakAt (ftrtSeries : list snapshot) (threshold : num) (i : nat)
  : list peak :=
  match nth_error ftrtSeries i, nth_error ftrtSeries (i - 1),
        nth_error ftrtSeries (i + 1) with
  | Some s, Some p, Some n =>
      let current := normalizedIndex s in
      let previous := normalizedIndex p in
      let next := normalizedIndex n in
      if (current >? threshold) && (current >? previous) && (current >? next)
      then
        [mkPeak (date s) (julianDay s) current (dominantPlanet s)
           "ftrt_peak"
           (if current >? Fin 0.85 then extreme
            else if current >? Fin 0.75 then high else moderate)]
      else []
  | _, _, _ => []
  end.

(** [for (let i = 1; i < ftrtSeries.length - 1; i++)] *)
Definition detectFTRTPeaks (ftrtSeries : list snapshot) (threshold : num)
  : list peak :=
  fold_left (fun peaks i => peaks ++ peakAt ftrtSeries threshold i)
            (seq 1 (List.length ftrtSeries - 1 - 1)) [].

Record alignment : Type := mkAlignment {
  score : num;
  meanAngle : num;
  dispersion : num;
  alignment_interpretation : string
}.

Definition calculateAlignmentScore (date : Date) : alignment :=
  let julianDay := Fin (IZR (dateToJulianDay date)) in
  let angles :=
    map (fun planetName =>
           match prop PLANETS planetName with
           | Some planet =>
               rem (Fin 2 * Fin PI * julianDay / Fin (period planet))
                   (Fin 2 * Fin PI)
           | None => NaN
           end)
        (keys PLANETS) in
  let meanAngle :=
    fold_left (fun sum angle => sum + angle) angles (Fin 0)
    / Fin (INR (List.length angles)) in
  let dispersion :=
    fold_left (fun sum angle => sum + Math_pow (angle - meanAngle) 2)
      angles (Fin 0)
    / Fin (INR (List.length angles)) in
  let alignmentScore := Fin 1 - (Math_sqrt dispersion / Fin PI) in
  mkAlignment (max2 (Fin 0) (min2 (Fin 1) alignmentScore)) meanAngle
    dispersion
    (if alignmentScore >? Fin 0.7 then "High alignment"
     else if alignmentScore >? Fin 0.5 then "Moderate alignment"
     else "Low alignment").



End FTRT.

(** * Notions the statements use *)

Import JS.

(** ** Sums over arrays of reals *)

Definition Rsum (xs : list R) : R := fold_right Rplus 0 xs.

Definition Rmean (xs : list R) : R := Rsum xs / INR (List.length xs).

(** All the elements of [xs] are [c]. *)
Definition constant (c : R) (xs : list R) : Prop := Forall (fun x => x = c) xs.


(** The three sums the loop of [pearsonCorrelation] accumulates, from
    position [start] on. *)
Definition pearsonSums (x y : array) (meanX meanY : num) (start n : nat)
  (init : num * num * num) : num * num * num :=
  fold_left
    (fun '(numerator, denomX, denomY) i =>
       let dx := sub (toNumber (nth i x Undefined)) meanX in
       let dy := sub (toNumber (nth i y Undefined)) meanY in
       (add numerator (mul dx dy), add denomX (mul dx dx),
        add denomY (mul dy dy)))
    (seq start n) init.

(** The sums over the reals the loop computes. *)
Definition Rdot (mx my : R) (xs ys : list R) : R :=
  Rsum (map (fun p => (fst p - mx) * (snd p - my)) (combine xs ys)).

Definition Rsq (m : R) (xs : list R) : R :=
  Rsum (map (fun x => (x - m) * (x - m)) xs).

(** ** Order statistics of an array of reals *)

(** [lo] is the least element of [xs], [hi] its greatest. *)
Definition isMin (lo : R) (xs : list R) : Prop :=
  In lo xs /\ Forall (fun x => lo <= x) xs.

Definition isMax (hi : R) (xs : list R) : Prop :=
  In hi xs /\ Forall (fun x => x <= hi) xs.


(** ** Peaks of an FTRT series *)

Section PeakNotions.
Import FTRT.

(** The normalized index at a position of the series. *)
Definition valueAt (series : list snapshot) (i : nat) : num :=
  match nth_error series i with
  | Some s => normalizedIndex s
  | None => NaN
  end.

(** The value at [i] is strictly above the threshold and both its
    neighbours. *)
Definition isPeak (series : list snapshot) (threshold : num) (i : nat)
  : bool :=
  gtb (valueAt series i) threshold
  && gtb (valueAt series i) (valueAt series (i - 1))
  && gtb (valueAt series i) (valueAt series (i + 1)).

(** The interior positions, first and last excluded, that are peaks. *)
Definition peakPositions (series : list snapshot) (threshold : num)
  : list nat :=
  filter (isPeak series threshold) (seq 1 (List.length series - 2)).

Definition band (v : num) : significance :=
  if gtb v (Fin 0.85) then extreme
  else if gtb v (Fin 0.75) then high else moderate.

(** The record of a peak at the snapshot [s]. *)
Definition peakOf (s : snapshot) : peak :=
  mkPeak (date s) (julianDay s) (normalizedIndex s) (dominantPlanet s)
    "ftrt_peak" (band (normalizedIndex s)).

(** The elements of a list at the given positions. *)
Definition select {A} (l : list A) (positions : list nat) : list A :=
  flat_map (fun i => match nth_error l i with
                     | Some a => [a]
                     | None => []
                     end) positions.

End PeakNotions.

(** A snapshot holding the given normalized index. *)
Definition snapshotOf (v : R) : FTRT.snapshot :=
  FTRT.mkSnapshot (mkDate 2000 0 1) 0 (Fin 0) (Fin v) [] "" (Fin 0).

(** ** Aligned pairs of a cross-correlation *)








(** ** Tidal forces over the reals *)

Section TidalNotions.
Import FTRT.

(** The tidal force of a planet at a Julian day, as a real. *)
Definition tidalForceR (p : planet) (jd : R) : R :=
  2 * GRAVITATIONAL_CONSTANT * mass p * SUN_RADIUS
  / (semiMajorAxis p * (1 + 0.05 * cos (2 * PI * jd / period p))) ^ 3.

(** The force of the planet of that name, 0 for an unknown name. *)
Definition forceOf (jd : R) (planetName : string) : R :=
  match prop PLANETS planetName with
  | Some p => tidalForceR p jd
  | None => 0
  end.

(** The entries the first loop of [calculateFTRT] writes for the given
    names. *)
Definition forcesOf (jd : R) (names : list string) : object num :=
  map (fun k => (k, Fin (forceOf jd k))) names.

(** What the formula needs of a row of the table. *)
Definition physical (p : planet) : Prop :=
  0 < mass p /\ 0 < semiMajorAxis p /\ period p <> 0.

(** The two loop bodies of [calculateFTRT]. *)
Definition forcesStep (julianDay : Z) (acc : object num * num)
  (planetName : string) : object num * num :=
  let '(forces, totalForce) := acc in
  let force :=
    calculatePlanetaryTidalForce planetName (Fin (IZR julianDay)) in
  (setProp forces planetName force, add totalForce force).

Definition dominantStep (forces : object num) (max planet : string)
  : string :=
  if gtb (force forces planet) (force forces max) then planet else max.

(** [name] is the first entry of [forces] that holds their maximum: the
    entries before it are strictly smaller, the entries after it are not
    greater. *)
Definition firstMaximum (forces : object num) (name : string) : Prop :=
  exists before after rmax,
    forces = before ++ (name, Fin rmax) :: after
    /\ Forall (fun kf => exists r, snd kf = Fin r /\ r < rmax) before
    /\ Forall (fun kf => exists r, snd kf = Fin r /\ r <= rmax) after.

End TidalNotions.

(** ** Sorting over the reals *)

(** What [sort] does on an array of reals. *)
Fixpoint Rinsert (v : R) (sorted : list R) : list R :=
  match sorted with
  | [] => [v]
  | w :: rest =>
      if Rlt_dec w v then w :: Rinsert v rest else v :: sorted
  end.

Definition Rsort (xs : list R) : list R := fold_right Rinsert [] xs.

(** The linear interpolation of [percentile] between two order statistics
    of the sorted reals [s], at the real position [t]. *)
Definition interpolate (s : list R) (t : R) : R :=
  nth (Z.to_nat (Zfloor t)) s 0 * (1 - (t - IZR (Zfloor t)))
  + nth (Z.to_nat (Zceil t)) s 0 * (t - IZR (Zfloor t)).

(** ** Series *)




Definition totalCount (histogram : list Statistics.bin) : nat :=
  list_sum (map Statistics.count histogram).

(** The body of the loop of [mode]. *)
Definition modeStep
  : list (value * nat) * nat * value -> value
    -> list (value * nat) * nat * value :=
  fun '(frequency, maxFreq, modeValue) val =>
    let c := S (Statistics.frequencyOf frequency val) in
    let frequency := Statistics.setFrequency frequency val c in
    if (maxFreq <? c)%nat then (frequency, c, val)
    else (frequency, maxFreq, modeValue).

(** How often [x] occurs in [xs]. *)
Definition occurrences (xs : list R) (x : R) : nat :=
  count_occ Req_dec_T xs x.

(** ** Lag search, regression, autocorrelation *)

(** The absolute value of a finite coefficient, 0 otherwise. *)
Definition absCorrelation (r : Correlations.lagResult) : R :=
  match Correlations.correlation r with
  | Fin c => Rabs c
  | _ => 0
  end.

(** The coefficient of a record is a finite number. *)
Definition finiteCorrelation (r : Correlations.lagResult) : Prop :=
  exists c, Correlations.correlation r = Fin c.

(** The body of the reduction of [findOptimalLag]. *)
Definition optimalStep (max current : Correlations.lagResult)
  : Correlations.lagResult :=
  if gtb (Math_abs (Correlations.correlation current))
       (Math_abs (Correlations.correlation max))
  then current else max.




(** ** Autocorrelation *)


(** ** Moving average *)


(** ** Peaks of a series of numbers *)

(** The test of [detectPeaks] at position [i]. *)
Definition peakCond (data : array) (threshold : num) (i : nat) : bool :=
  let at_ k := toNumber (nth k data Undefined) in
  gtb (at_ i) (at_ (i - 1)%nat) && gtb (at_ i) (at_ (i + 1)%nat)
  && gtb (at_ i) threshold.

(** One turn of the loop of [detectPeaks]. *)
Definition peakStep (data : array) (threshold : num) (minDistance : Z)
  (peaks : list nat) (i : nat) : list nat :=
  if peakCond data threshold i then
    match rev peaks with
    | [] => peaks ++ [i]
    | last :: _ =>
        if (minDistance <=? Z.of_nat i - Z.of_nat last)%Z
        then peaks ++ [i] else peaks
    end
  else peaks.

(** The element at [i] is above both neighbours and above [t]. *)
Definition strictPeak (xs : list R) (t : R) (i : nat) : Prop :=
  nth (i - 1) xs 0 < nth i xs 0
  /\ nth (i + 1) xs 0 < nth i xs 0
  /\ t < nth i xs 0.

(** The indices increase, two consecutive ones at least [d] apart. *)
Fixpoint spaced (d : Z) (l : list nat) : Prop :=
  match l with
  | p :: (q :: _) as rest =>
      (p < q)%nat /\ (d <= Z.of_nat q - Z.of_nat p)%Z /\ spaced d rest
  | _ => True
  end.

(** ** The binomial test *)


(** ** Alignment score *)

Section AlignmentNotions.
Import FTRT.

(** The angles [calculateAlignmentScore] collects, one for each key of the
    table. *)
Definition planetAngles (julianDay : num) : list num :=
  map (fun planetName =>
         match prop PLANETS planetName with
         | Some planet =>
             rem (div (mul (mul (Fin 2) (Fin PI)) julianDay)
                      (Fin (period planet)))
                 (mul (Fin 2) (Fin PI))
         | None => NaN
         end)
      (keys PLANETS).

(** The record [calculateAlignmentScore] builds from the angles. *)
Definition alignmentOf (angles : list num) : alignment :=
  let meanAngle :=
    div (fold_left (fun sum angle => add sum angle) angles (Fin 0))
        (Fin (INR (List.length angles))) in
  let dispersion :=
    div (fold_left (fun sum angle => add sum (Math_pow (sub angle meanAngle) 2))
           angles (Fin 0))
        (Fin (INR (List.length angles))) in
  let alignmentScore := sub (Fin 1) (div (Math_sqrt dispersion) (Fin PI)) in
  mkAlignment (max2 (Fin 0) (min2 (Fin 1) alignmentScore)) meanAngle
    dispersion
    (if gtb alignmentScore (Fin 0.7) then "High alignment"
     else if gtb alignmentScore (Fin 0.5) then "Moderate alignment"
     else "Low alignment").

End AlignmentNotions.
(** * Properties *)

(** ** Arithmetic on finite numbers *)

Lemma div_Fin (a b : R) : b <> 0 -> div (Fin a) (Fin b) = Fin (a / b).
Proof.
  intros Hb. unfold div. destruct (Req_dec_T b 0); [contradiction | reflexivity].
Qed.

Lemma div_zero_zero : div (Fin 0) (Fin 0) = NaN.
Proof.
  unfold div. destruct (Req_dec_T 0 0); [reflexivity | contradiction].
Qed.

Lemma div_pos_zero (a : R) : 0 < a -> div (Fin a) (Fin 0) = PInf.
Proof.
  intros Ha. unfold div.
  destruct (Req_dec_T 0 0); [| contradiction].
  destruct (Req_dec_T a 0); [lra |].
  destruct (Rlt_dec 0 a); [reflexivity | contradiction].
Qed.

Lemma eqb_Fin_refl (a : R) : eqb (Fin a) (Fin a) = true.
Proof.
  unfold eqb. destruct (Req_dec_T a a); [reflexivity | contradiction].
Qed.

Lemma eqb_Fin_neq (a b : R) : a <> b -> eqb (Fin a) (Fin b) = false.
Proof.
  intros H. unfold eqb. destruct (Req_dec_T a b); [contradiction | reflexivity].
Qed.

Lemma ltb_Fin_true (a b : R) : a < b -> ltb (Fin a) (Fin b) = true.
Proof.
  intros H. unfold ltb. destruct (Rlt_dec a b); [reflexivity | contradiction].
Qed.

Lemma ltb_Fin_false (a b : R) : b <= a -> ltb (Fin a) (Fin b) = false.
Proof.
  intros H. unfold ltb. destruct (Rlt_dec a b); [lra | reflexivity].
Qed.

Lemma sqrt_Fin (a : R) : 0 <= a -> Math_sqrt (Fin a) = Fin (sqrt a).
Proof.
  intros H. unfold Math_sqrt. destruct (Rlt_dec a 0); [lra | reflexivity].
Qed.

Lemma sub_Fin (a b : R) : sub (Fin a) (Fin b) = Fin (a - b).
Proof. reflexivity. Qed.

(** Equality of tuples of finite numbers, component by component. *)
Ltac fin_eq :=
  repeat
    match goal with
    | |- (_, _) = (_, _) => f_equal
    | |- Fin _ = Fin _ => f_equal
    end.

(** Evaluation of the comparisons on concrete finite numbers. *)
Ltac js_compare :=
  repeat
    (first
       [ rewrite ltb_Fin_true by lra
       | rewrite ltb_Fin_false by lra
       | rewrite eqb_Fin_refl
       | rewrite eqb_Fin_neq by lra ]).

(** ** Sums over arrays of reals *)

Lemma fold_add_reals (xs : list R) (a : R) :
  fold_left (fun s v => add s (toNumber v)) (reals xs) (Fin a)
  = Fin (a + Rsum xs).
Proof.
  revert a. induction xs as [| x xs IH]; intros a.
  - cbn. f_equal. lra.
  - change (reals (x :: xs)) with (Num (Fin x) :: reals xs).
    cbn [fold_left toNumber add]. rewrite IH. unfold Rsum. cbn [fold_right].
    f_equal. lra.
Qed.

Lemma reals_length (xs : list R) : List.length (reals xs) = List.length xs.
Proof. apply length_map. Qed.

Lemma INR_length_neq (A : Type) (xs : list A) :
  xs <> [] -> INR (List.length xs) <> 0.
Proof.
  intros H. apply not_0_INR. destruct xs; [contradiction | discriminate].
Qed.

Lemma Rsum_constant (c : R) (xs : list R) :
  constant c xs -> Rsum xs = INR (List.length xs) * c.
Proof.
  induction 1 as [| x xs Hx _ IH].
  - cbn. lra.
  - cbn [Rsum fold_right List.length]. fold (Rsum xs).
    rewrite S_INR, IH, Hx. lra.
Qed.

Lemma Rmean_constant (c : R) (xs : list R) :
  xs <> [] -> constant c xs -> Rmean xs = c.
Proof.
  intros Hne Hc. unfold Rmean. rewrite (Rsum_constant c xs Hc).
  field. now apply INR_length_neq.
Qed.

(** ** Pearson correlation *)

Section Pearson.
Import Correlations.

Lemma pearsonCorrelation_unfold (x y : array) :
  pearsonCorrelation x y =
  if negb (Nat.eqb (List.length x) (List.length y))
     || Nat.eqb (List.length x) 0
  then Throw (Error "Arrays must be non-empty and of equal length")
  else
    let '(numerator, denomX, denomY) :=
      pearsonSums x y (mean x) (mean y) 0 (List.length x)
        (Fin 0, Fin 0, Fin 0) in
    if eqb denomX (Fin 0) || eqb denomY (Fin 0) then Normal (Fin 0)
    else Normal (div numerator (Math_sqrt (mul denomX denomY))).
Proof. reflexivity. Qed.

Lemma nth_reals_app (pre xs : list R) (x : R) :
  nth (List.length pre) (reals (pre ++ x :: xs)) Undefined = Num (Fin x).
Proof.
  unfold reals. rewrite map_app. rewrite app_nth2; rewrite length_map; [| lia].
  rewrite Nat.sub_diag. reflexivity.
Qed.

Lemma pearsonSums_reals (mx my : R) (xs : list R) :
  forall (ys pre_x pre_y : list R) (a b c : R),
    List.length pre_x = List.length pre_y ->
    List.length xs = List.length ys ->
    pearsonSums (reals (pre_x ++ xs)) (reals (pre_y ++ ys)) (Fin mx) (Fin my)
      (List.length pre_x) (List.length xs) (Fin a, Fin b, Fin c)
    = (Fin (a + Rdot mx my xs ys), Fin (b + Rsq mx xs), Fin (c + Rsq my ys)).
Proof.
  induction xs as [| x xs IH]; intros ys pre_x pre_y a b c Hpre Hlen.
  - destruct ys; [| discriminate]. cbn.
    fin_eq; unfold Rdot, Rsq, Rsum; cbn; lra.
  - destruct ys as [| y ys]; [discriminate |].
    unfold pearsonSums. cbn [List.length seq fold_left].
    pose proof (nth_reals_app pre_y ys y) as Hy. rewrite <- Hpre in Hy.
    rewrite nth_reals_app, Hy.
    cbn [toNumber sub add neg mul].
    replace (pre_x ++ x :: xs) with ((pre_x ++ [x]) ++ xs)
      by (rewrite <- app_assoc; reflexivity).
    replace (pre_y ++ y :: ys) with ((pre_y ++ [y]) ++ ys)
      by (rewrite <- app_assoc; reflexivity).
    replace (S (List.length pre_x)) with (List.length (pre_x ++ [x]))
      by (rewrite length_app; cbn; lia).
    etransitivity; [apply (IH ys (pre_x ++ [x]) (pre_y ++ [y])) |].
    + rewrite !length_app. cbn. lia.
    + cbn in Hlen. lia.
    + unfold Rdot, Rsq, Rsum. cbn [combine map fold_right fst snd].
      fin_eq; lra.
Qed.

Lemma mean_reals (xs : list R) :
  xs <> [] -> mean (reals xs) = Fin (Rmean xs).
Proof.
  intros Hne. unfold mean, len. rewrite fold_add_reals, reals_length.
  rewrite div_Fin by now apply INR_length_neq.
  unfold Rmean. f_equal. lra.
Qed.

(** On two arrays of reals of one non-zero length the call returns, and
    what it returns is decided by the three real sums. *)
Lemma pearsonCorrelation_reals (xs ys : list R) :
  xs <> [] -> List.length xs = List.length ys ->
  pearsonCorrelation (reals xs) (reals ys) =
  let numerator := Rdot (Rmean xs) (Rmean ys) xs ys in
  let denomX := Rsq (Rmean xs) xs in
  let denomY := Rsq (Rmean ys) ys in
  if eqb (Fin denomX) (Fin 0) || eqb (Fin denomY) (Fin 0) then Normal (Fin 0)
  else Normal (div (Fin numerator) (Math_sqrt (Fin (denomX * denomY)))).
Proof.
  intros Hne Hlen.
  assert (Hney : ys <> []) by (destruct xs, ys; try discriminate; congruence).
  rewrite pearsonCorrelation_unfold, !reals_length, <- Hlen, Nat.eqb_refl.
  assert (H0 : Nat.eqb (List.length xs) 0 = false)
    by (destruct xs; [contradiction | reflexivity]).
  rewrite H0. cbn [negb orb].
  rewrite (mean_reals xs Hne), (mean_reals ys Hney).
  pose proof (pearsonSums_reals (Rmean xs) (Rmean ys) xs ys
                [] [] 0 0 0 eq_refl Hlen) as Hs.
  cbn [app List.length] in Hs. rewrite Hs. cbv zeta.
  rewrite !Rplus_0_l. reflexivity.
Qed.


Lemma Rsq_nonneg (m : R) (xs : list R) : 0 <= Rsq m xs.
Proof.
  unfold Rsq, Rsum. induction xs as [| x xs IH]; cbn [map fold_right].
  - lra.
  - pose proof (Rle_0_sqr (x - m)) as Hx. unfold Rsqr in Hx. lra.
Qed.






End Pearson.

Section PearsonClaims.
Import Correlations.






End PearsonClaims.

(** ** Descriptive statistics *)

Section StatisticsFacts.
Import Statistics.

Lemma mean_reals_stat (xs : list R) :
  xs <> [] -> mean (reals xs) = Fin (Rmean xs).
Proof.
  intros Hne. unfold mean.
  destruct (reals xs) eqn:E; [destruct xs; [contradiction | discriminate] |].
  rewrite <- E. unfold sum, len. rewrite fold_add_reals, reals_length.
  rewrite div_Fin by now apply INR_length_neq.
  unfold Rmean. f_equal. lra.
Qed.

Lemma squareDiffs_reals (m : R) (xs : list R) :
  map (fun val => Num (Math_pow (sub (toNumber val) (Fin m)) 2)) (reals xs)
  = reals (map (fun x => (x - m) ^ 2) xs).
Proof.
  unfold reals. rewrite !map_map. apply map_ext. intros x. reflexivity.
Qed.

Lemma squareDiffs_constant (c : R) (xs : list R) :
  constant c xs -> constant 0 (map (fun x => (x - c) ^ 2) xs).
Proof.
  unfold constant. intros H. apply Forall_map.
  apply Forall_impl with (2 := H). intros x ->. ring.
Qed.

Lemma standardDeviation_reals (xs : list R) (sample : bool) :
  xs <> [] ->
  standardDeviation (reals xs) sample =
  Math_sqrt
    (mul (Fin (Rmean (map (fun x => (x - Rmean xs) ^ 2) xs)))
       (div (Fin (INR (List.length xs)))
          (if sample then Fin (INR (List.length xs) - 1)
           else Fin (INR (List.length xs))))).
Proof.
  intros Hne. unfold standardDeviation.
  destruct (reals xs) eqn:E; [destruct xs; [contradiction | discriminate] |].
  rewrite <- E. rewrite (mean_reals_stat xs Hne), squareDiffs_reals.
  rewrite mean_reals_stat by (destruct xs; [contradiction | discriminate]).
  unfold len. rewrite reals_length. destruct sample; reflexivity.
Qed.


(** C8, at the input where the code departs from it: the sample deviation
    of a single element divides by zero, and the result is NaN, not 0. *)
Theorem standardDeviation_single_sample_NaN (c : R) :
  standardDeviation (reals [c]) true = NaN.
Proof.
  assert (Hc : constant c [c]) by (repeat constructor).
  rewrite standardDeviation_reals by discriminate.
  rewrite (Rmean_constant c [c]) by (discriminate || assumption).
  rewrite (Rmean_constant 0 (map _ [c]))
    by (discriminate || now apply squareDiffs_constant).
  cbn [List.length]. change (INR 1) with 1.
  replace (1 - 1) with 0 by lra.
  rewrite div_pos_zero by lra.
  cbn [mul]. unfold inf_times.
  destruct (Req_dec_T 0 0); [reflexivity | contradiction].
Qed.

(** [Math.min(...data)] and [Math.max(...data)] on reals. *)

Lemma min2_Fin (a b : R) : min2 (Fin a) (Fin b) = Fin (Rmin a b).
Proof.
  unfold min2, ltb, Rmin.
  destruct (Rlt_dec b a), (Rle_dec a b); try reflexivity; f_equal; lra.
Qed.

Lemma max2_Fin (a b : R) : max2 (Fin a) (Fin b) = Fin (Rmax a b).
Proof.
  unfold max2, ltb, Rmax.
  destruct (Rlt_dec a b), (Rle_dec a b); try reflexivity; f_equal; lra.
Qed.

Lemma fold_min2_reals (xs : list R) (a : R) :
  fold_left (fun acc v => min2 acc (toNumber v)) (reals xs) (Fin a)
  = Fin (fold_left Rmin xs a).
Proof.
  revert a. induction xs as [| x xs IH]; intros a; [reflexivity |].
  change (reals (x :: xs)) with (Num (Fin x) :: reals xs).
  cbn [fold_left toNumber]. rewrite min2_Fin. apply IH.
Qed.

Lemma fold_max2_reals (xs : list R) (a : R) :
  fold_left (fun acc v => max2 acc (toNumber v)) (reals xs) (Fin a)
  = Fin (fold_left Rmax xs a).
Proof.
  revert a. induction xs as [| x xs IH]; intros a; [reflexivity |].
  change (reals (x :: xs)) with (Num (Fin x) :: reals xs).
  cbn [fold_left toNumber]. rewrite max2_Fin. apply IH.
Qed.

Lemma fold_Rmin_spec (xs : list R) (a : R) :
  (fold_left Rmin xs a = a \/ In (fold_left Rmin xs a) xs)
  /\ fold_left Rmin xs a <= a
  /\ Forall (fun x => fold_left Rmin xs a <= x) xs.
Proof.
  revert a. induction xs as [| x xs IH]; intros a; cbn [fold_left].
  - repeat split; [now left | lra | constructor].
  - destruct (IH (Rmin a x)) as (Hin & Hle & Hall).
    pose proof (Rmin_l a x). pose proof (Rmin_r a x).
    repeat split.
    + destruct Hin as [E | Hin]; [| right; now right].
      rewrite E. unfold Rmin. destruct (Rle_dec a x); [now left |].
      right. now left.
    + lra.
    + constructor; [lra | assumption].
Qed.

Lemma fold_Rmax_spec (xs : list R) (a : R) :
  (fold_left Rmax xs a = a \/ In (fold_left Rmax xs a) xs)
  /\ a <= fold_left Rmax xs a
  /\ Forall (fun x => x <= fold_left Rmax xs a) xs.
Proof.
  revert a. induction xs as [| x xs IH]; intros a; cbn [fold_left].
  - repeat split; [now left | lra | constructor].
  - destruct (IH (Rmax a x)) as (Hin & Hle & Hall).
    pose proof (Rmax_l a x). pose proof (Rmax_r a x).
    repeat split.
    + destruct Hin as [E | Hin]; [| right; now right].
      rewrite E. unfold Rmax. destruct (Rle_dec a x); [| now left].
      right. now left.
    + lra.
    + constructor; [lra | assumption].
Qed.

Lemma Math_min_reals (lo : R) (xs : list R) :
  isMin lo xs -> Math_min (reals xs) = Fin lo.
Proof.
  intros [Hin Hall]. destruct xs as [| x xs]; [contradiction |].
  unfold Math_min. change (reals (x :: xs)) with (Num (Fin x) :: reals xs).
  cbn [fold_left toNumber].
  change (min2 PInf (Fin x)) with (Fin x).
  rewrite fold_min2_reals. f_equal.
  destruct (fold_Rmin_spec xs x) as (Hm & Hle & Hmall).
  set (m := fold_left Rmin xs x) in *.
  assert (Hmlo : m <= lo).
  { destruct Hin as [<- | Hin]; [assumption |].
    rewrite Forall_forall in Hmall. now apply Hmall. }
  assert (Hlom : lo <= m).
  { rewrite Forall_forall in Hall. apply Hall.
    destruct Hm as [-> | Hm]; [now left | now right]. }
  lra.
Qed.

Lemma Math_max_reals (hi : R) (xs : list R) :
  isMax hi xs -> Math_max (reals xs) = Fin hi.
Proof.
  intros [Hin Hall]. destruct xs as [| x xs]; [contradiction |].
  unfold Math_max. change (reals (x :: xs)) with (Num (Fin x) :: reals xs).
  cbn [fold_left toNumber].
  change (max2 NInf (Fin x)) with (Fin x).
  rewrite fold_max2_reals. f_equal.
  destruct (fold_Rmax_spec xs x) as (Hm & Hle & Hmall).
  set (m := fold_left Rmax xs x) in *.
  assert (Hmhi : hi <= m).
  { destruct Hin as [<- | Hin]; [assumption |].
    rewrite Forall_forall in Hmall. now apply Hmall. }
  assert (Hhim : m <= hi).
  { rewrite Forall_forall in Hall. apply Hall.
    destruct Hm as [-> | Hm]; [now left | now right]. }
  lra.
Qed.

Lemma constant_isMin (c : R) (xs : list R) :
  xs <> [] -> constant c xs -> isMin c xs /\ isMax c xs.
Proof.
  intros Hne Hc. unfold isMin, isMax.
  assert (Hin : In c xs).
  { destruct xs as [| x xs]; [contradiction |].
    inversion Hc; subst. now left. }
  repeat split; try assumption;
    apply Forall_impl with (2 := Hc); intros x ->; lra.
Qed.



(** Reading an array at an integer outside its bounds. *)

Lemma index_IZR (z : Z) :
  index (Fin (IZR z)) = if (0 <=? z)%Z then Some (Z.to_nat z) else None.
Proof.
  unfold index. rewrite ZfloorZ.
  destruct (Req_dec_T (IZR z) (IZR z)); [reflexivity | contradiction].
Qed.



Lemma insert_length (v : value) (sorted : array) :
  List.length (insert v sorted) = S (List.length sorted).
Proof.
  induction sorted as [| w rest IH]; [reflexivity |].
  cbn [insert]. destruct (gtb _ _); cbn [List.length]; [now rewrite IH | reflexivity].
Qed.

Lemma sort_length (data : array) : List.length (sort data) = List.length data.
Proof.
  induction data as [| v data IH]; [reflexivity |].
  cbn [sort fold_right]. fold (sort data). now rewrite insert_length, IH.
Qed.

Lemma percentile_index (xs : list R) (p : R) :
  mul (div (Fin p) (Fin 100)) (sub (len (sort (reals xs))) (Fin 1))
  = Fin (p / 100 * (INR (List.length xs) - 1)).
Proof.
  unfold len. rewrite sort_length, reals_length.
  rewrite div_Fin by lra. reflexivity.
Qed.






(** Once a step of a loop has thrown, the loop has. *)
Lemma fold_left_Throw (A B : Type) (step : A -> B -> completion A)
  (l : list B) (e : error) :
  fold_left (fun acc b => bind acc (fun a => step a b)) l (Throw e) = Throw e.
Proof. induction l as [| b l IH]; [reflexivity | exact IH]. Qed.

(** The width of the bins of a constant array is 0 or, for no bin at all,
    NaN: no element has a bin index. *)
Lemma binIndex_constant (c : R) (bins : nat) :
  min2
    (Math_floor
       (div (sub (Fin c) (Fin c))
          (div (sub (Fin c) (Fin c)) (Fin (INR bins)))))
    (sub (Fin (INR bins)) (Fin 1))
  = NaN.
Proof.
  cbn [sub neg add]. replace (c + - c) with 0 by lra.
  assert (Hw : div (Fin 0) (Fin (INR bins)) = NaN
               \/ div (Fin 0) (Fin (INR bins)) = Fin 0).
  { unfold div. destruct (Req_dec_T (INR bins) 0).
    - left. destruct (Req_dec_T 0 0); [reflexivity | contradiction].
    - right. f_equal. field. assumption. }
  destruct Hw as [-> | ->]; [reflexivity |].
  rewrite div_zero_zero. reflexivity.
Qed.

(** C4, at the inputs where the code departs from it: on every non-empty
    constant array of reals, whatever the number of bins, [histogram] throws
    a TypeError. *)
Theorem histogram_constant_throws (c : R) (xs : list R) (bins : nat) :
  xs <> [] -> constant c xs ->
  histogram (reals xs) bins = Throw TypeError.
Proof.
  intros Hne Hc.
  destruct (constant_isMin c xs Hne Hc) as [Hmin Hmax].
  unfold histogram.
  rewrite (Math_min_reals c xs Hmin), (Math_max_reals c xs Hmax).
  destruct xs as [| x xs]; [contradiction |].
  inversion Hc as [| ? ? Hx _]; subst x.
  change (reals (c :: xs)) with (Num (Fin c) :: reals xs).
  cbn [fold_left bind toNumber].
  rewrite binIndex_constant.
  change (record _ NaN (Num (Fin c))) with (@Throw (list bin) TypeError).
  apply (fold_left_Throw (list bin) value
           (fun histogram val =>
              record histogram
                (min2
                   (Math_floor
                      (div (sub (toNumber val) (Fin c))
                         (div (sub (Fin c) (Fin c)) (Fin (INR bins)))))
                   (sub (Fin (INR bins)) (Fin 1)))
                val)).
Qed.

Lemma histogram_constant_throws_witness :
  histogram (reals [5; 5; 5]) 10 = Throw TypeError.
Proof.
  apply (histogram_constant_throws 5 [5; 5; 5] 10).
  - discriminate.
  - repeat constructor.
Defined.

End StatisticsFacts.

(** ** Peak detection *)

Section Peaks.
Import FTRT.

Lemma fold_left_app_flat_map (A B : Type) (f : A -> list B) (l : list A)
  (acc : list B) :
  fold_left (fun peaks i => peaks ++ f i) l acc = acc ++ flat_map f l.
Proof.
  revert acc. induction l as [| a l IH]; intros acc; cbn.
  - now rewrite app_nil_r.
  - rewrite IH. now rewrite app_assoc.
Qed.

Lemma peakAt_interior (series : list snapshot) (threshold : num) (i : nat) :
  (1 <= i)%nat -> (i + 1 < List.length series)%nat ->
  exists s, nth_error series i = Some s /\
    peakAt series threshold i
    = if isPeak series threshold i then [peakOf s] else [].
Proof.
  intros H1 H2.
  destruct (nth_error series i) as [s |] eqn:Es;
    [| apply nth_error_None in Es; lia].
  destruct (nth_error series (i - 1)) as [p |] eqn:Ep;
    [| apply nth_error_None in Ep; lia].
  destruct (nth_error series (i + 1)) as [n |] eqn:En;
    [| apply nth_error_None in En; lia].
  exists s. split; [reflexivity |].
  unfold peakAt, isPeak, valueAt. rewrite Es, Ep, En. reflexivity.
Qed.

Lemma peaks_at_interior (series : list snapshot) (threshold : num)
  (positions : list nat) :
  Forall (fun i => (1 <= i)%nat /\ (i + 1 < List.length series)%nat)
         positions ->
  flat_map (peakAt series threshold) positions
  = map peakOf (select series (filter (isPeak series threshold) positions)).
Proof.
  induction 1 as [| i positions [H1 H2] _ IH]; [reflexivity |].
  cbn [flat_map filter]. rewrite IH.
  destruct (peakAt_interior series threshold i H1 H2) as (s & Es & ->).
  destruct (isPeak series threshold i); [| reflexivity].
  unfold select. cbn [flat_map]. rewrite Es. reflexivity.
Qed.

Lemma interior_positions (n : nat) :
  Forall (fun i => (1 <= i)%nat /\ (i + 1 < n)%nat) (seq 1 (n - 2)).
Proof.
  apply Forall_forall. intros i Hi. apply in_seq in Hi. lia.
Qed.

Lemma detectFTRTPeaks_positions (series : list snapshot) (threshold : num) :
  detectFTRTPeaks series threshold
  = map peakOf (select series (peakPositions series threshold)).
Proof.
  unfold detectFTRTPeaks, peakPositions.
  rewrite fold_left_app_flat_map. cbn [app].
  replace (List.length series - 1 - 1)%nat with (List.length series - 2)%nat
    by lia.
  apply peaks_at_interior, interior_positions.
Qed.

Lemma select_length (A : Type) (l : list A) (positions : list nat) :
  Forall (fun i => (i < List.length l)%nat) positions ->
  List.length (select l positions) = List.length positions.
Proof.
  induction 1 as [| i positions Hi _ IH]; [reflexivity |].
  unfold select in *. cbn [flat_map].
  destruct (nth_error l i) eqn:E; [| apply nth_error_None in E; lia].
  cbn [app List.length]. now rewrite IH.
Qed.

(** C6. [detectFTRTPeaks] returns, in order, one record for each interior
    position whose value is strictly above the threshold and both
    neighbours; the first and the last position are never among them; the
    record holds the value and its band, extreme above 0.85, high above
    0.75, moderate otherwise.  On the values 0.1, 0.3, 0.6, 0.9, 0.5, 0.2
    with threshold 0.7 the only peak is the one at the position of 0.9. *)
Theorem detectFTRTPeaks_strict_local_maxima :
  (forall (series : list snapshot) (threshold : num),
      detectFTRTPeaks series threshold
      = map peakOf (select series (peakPositions series threshold))
      /\ List.length (detectFTRTPeaks series threshold)
         = List.length (peakPositions series threshold)
      /\ (forall i, In i (peakPositions series threshold) <->
                    (0 < i < List.length series - 1)%nat
                    /\ gtb (valueAt series i) threshold = true
                    /\ gtb (valueAt series i) (valueAt series (i - 1)) = true
                    /\ gtb (valueAt series i) (valueAt series (i + 1)) = true)
      /\ (forall p, In p (detectFTRTPeaks series threshold) ->
                    peak_significance p =
                    if gtb (peak_index p) (Fin 0.85) then extreme
                    else if gtb (peak_index p) (Fin 0.75) then high
                         else moderate)) /\
  (forall series : list snapshot,
      map normalizedIndex series
      = map Fin [0.1; 0.3; 0.6; 0.9; 0.5; 0.2] ->
      peakPositions series (Fin 0.7) = [3%nat]
      /\ exists s, nth_error series 3 = Some s
                   /\ normalizedIndex s = Fin 0.9
                   /\ detectFTRTPeaks series (Fin 0.7) = [peakOf s]).
Proof.
  split.
  - intros series threshold. repeat split.
    + apply detectFTRTPeaks_positions.
    + rewrite detectFTRTPeaks_positions, length_map. apply select_length.
      apply Forall_forall. intros i Hi. unfold peakPositions in Hi.
      apply filter_In in Hi. destruct Hi as [Hi _]. apply in_seq in Hi. lia.
    + unfold peakPositions in H. apply filter_In in H.
      destruct H as [H _]. apply in_seq in H. lia.
    + unfold peakPositions in H. apply filter_In in H.
      destruct H as [H _]. apply in_seq in H. lia.
    + unfold peakPositions in H. apply filter_In in H. destruct H as [_ H].
      unfold isPeak in H. apply andb_true_iff in H. destruct H as [H _].
      apply andb_true_iff in H. tauto.
    + unfold peakPositions in H. apply filter_In in H. destruct H as [_ H].
      unfold isPeak in H. apply andb_true_iff in H. destruct H as [H _].
      apply andb_true_iff in H. tauto.
    + unfold peakPositions in H. apply filter_In in H. destruct H as [_ H].
      unfold isPeak in H. apply andb_true_iff in H. tauto.
    + intros (Hi & H1 & H2 & H3). unfold peakPositions. apply filter_In.
      split; [apply in_seq; lia |].
      unfold isPeak. now rewrite H1, H2, H3.
    + intros p Hp. rewrite detectFTRTPeaks_positions in Hp.
      apply in_map_iff in Hp. destruct Hp as (s & <- & _). reflexivity.
  - intros series Hv.
    destruct series as [| s0 [| s1 [| s2 [| s3 [| s4 [| s5 [| s6 rest]]]]]]];
      try discriminate.
    cbn [map] in Hv.
    injection Hv as H0 H1 H2 H3 H4 H5.
    assert (Hpos : peakPositions [s0; s1; s2; s3; s4; s5] (Fin 0.7)
                   = [3%nat]).
    { unfold peakPositions, isPeak, valueAt.
      cbn [List.length Nat.sub seq filter nth_error Nat.add].
      rewrite H0, H1, H2, H3, H4, H5. unfold gtb.
      js_compare. reflexivity. }
    split; [exact Hpos |].
    exists s3. repeat split; [assumption |].
    rewrite detectFTRTPeaks_positions, Hpos. reflexivity.
Qed.

End Peaks.

Lemma detectFTRTPeaks_strict_local_maxima_witness :
  peakPositions (map snapshotOf [0.1; 0.3; 0.6; 0.9; 0.5; 0.2]) (Fin 0.7)
  = [3%nat].
Proof.
  apply (proj2 detectFTRTPeaks_strict_local_maxima
           (map snapshotOf [0.1; 0.3; 0.6; 0.9; 0.5; 0.2])).
  reflexivity.
Defined.

(** ** Cross-correlation *)

Section CrossCorrelation.
Import Correlations.



















End CrossCorrelation.

(** ** The tidal index *)

Section Tidal.
Import DateHelpers FTRT.

Lemma calculateFTRT_unfold (date : Date) :
  calculateFTRT date =
  let julianDay := dateToJulianDay date in
  let '(forces, totalForce) :=
    fold_left (forcesStep julianDay) (keys PLANETS)
      (([] : object num), Fin 0) in
  bind (reduce (dominantStep forces) (keys forces))
    (fun dominantPlanet =>
       Normal
         (mkSnapshot date julianDay totalForce
            (min2 (div totalForce (Fin FTRT_REFERENCE_FORCE)) (Fin 1))
            forces dominantPlanet
            (mul (div (force forces dominantPlanet) totalForce) (Fin 100)))).
Proof. reflexivity. Qed.

Lemma PLANETS_physical : Forall (fun kp => physical (snd kp)) PLANETS.
Proof.
  unfold PLANETS, physical.
  repeat constructor; cbn [snd mass semiMajorAxis period]; lra.
Qed.

Lemma PLANETS_keys_NoDup : NoDup (keys PLANETS).
Proof.
  unfold keys, PLANETS. cbn [map fst].
  repeat (constructor; [cbn [In]; intuition discriminate |]).
  constructor.
Qed.

Lemma prop_In (A : Type) (obj : object A) (key : string) :
  In key (keys obj) -> exists v, prop obj key = Some v /\ In (key, v) obj.
Proof.
  induction obj as [| [k w] obj IH]; intros Hin; [contradiction |].
  cbn [prop]. destruct (String.eqb_spec k key) as [-> | Hne].
  - exists w. split; [reflexivity | now left].
  - destruct Hin as [E | Hin]; [cbn in E; contradiction |].
    destruct (IH Hin) as (v & Hv & Hvin). exists v. split; [assumption |].
    now right.
Qed.

Lemma tidalForceR_pos (p : planet) (jd : R) :
  physical p ->
  0 < semiMajorAxis p * (1 + 0.05 * cos (2 * PI * jd / period p))
  /\ 0 < tidalForceR p jd.
Proof.
  intros (Hm & Ha & Hp).
  pose proof (COS_bound (2 * PI * jd / period p)) as [Hc _].
  assert (Hd : 0 < semiMajorAxis p
                   * (1 + 0.05 * cos (2 * PI * jd / period p))).
  { apply Rmult_lt_0_compat; lra. }
  split; [exact Hd |].
  unfold tidalForceR. apply Rdiv_lt_0_compat.
  - assert (HG : 0 < GRAVITATIONAL_CONSTANT)
      by (unfold GRAVITATIONAL_CONSTANT; lra).
    assert (HS : 0 < SUN_RADIUS) by (unfold SUN_RADIUS; lra).
    apply Rmult_lt_0_compat; [| exact HS].
    apply Rmult_lt_0_compat; [| exact Hm].
    apply Rmult_lt_0_compat; [lra | exact HG].
  - now apply pow_lt.
Qed.

Lemma calculatePlanetaryTidalForce_known (planetName : string) (jd : R) :
  In planetName (keys PLANETS) ->
  calculatePlanetaryTidalForce planetName (Fin jd)
  = Fin (forceOf jd planetName)
  /\ 0 < forceOf jd planetName.
Proof.
  intros Hin. destruct (prop_In _ PLANETS planetName Hin) as (p & Hp & Hpin).
  assert (Hphys : physical p).
  { pose proof PLANETS_physical as H. rewrite Forall_forall in H.
    exact (H _ Hpin). }
  destruct (tidalForceR_pos p jd Hphys) as [Hd Hf].
  unfold calculatePlanetaryTidalForce, forceOf. rewrite Hp.
  split; [| exact Hf].
  cbv zeta. cbn [mul]. rewrite div_Fin by apply Hphys.
  cbn [Math_cos mul add Math_pow].
  rewrite div_Fin by (apply pow_nonzero; lra).
  reflexivity.
Qed.

Lemma setProp_fresh (A : Type) (obj : object A) (key : string) (v : A) :
  ~ In key (keys obj) -> setProp obj key v = obj ++ [(key, v)].
Proof.
  induction obj as [| [k w] obj IH]; intros Hnin; [reflexivity |].
  cbn [setProp]. destruct (String.eqb_spec k key) as [-> | Hne].
  - exfalso. apply Hnin. now left.
  - cbn [app]. f_equal. apply IH. intros Hin. apply Hnin. now right.
Qed.

Lemma keys_forcesOf (jd : R) (names : list string) :
  keys (forcesOf jd names) = names.
Proof.
  unfold keys, forcesOf. rewrite map_map. cbn [fst]. apply map_id.
Qed.

Lemma fold_forcesStep (julianDay : Z) (names : list string) :
  forall (done : list string) (total : R),
    NoDup (done ++ names) ->
    (forall k, In k names -> In k (keys PLANETS)) ->
    fold_left (forcesStep julianDay) names
      (forcesOf (IZR julianDay) done, Fin total)
    = (forcesOf (IZR julianDay) (done ++ names),
       Fin (total + Rsum (map (forceOf (IZR julianDay)) names))).
Proof.
  induction names as [| k names IH]; intros done total Hnd Hin.
  - cbn. rewrite app_nil_r. fin_eq. lra.
  - cbn [fold_left forcesStep].
    destruct (calculatePlanetaryTidalForce_known k (IZR julianDay))
      as [-> _]; [apply Hin; now left |].
    rewrite setProp_fresh.
    + replace (forcesOf (IZR julianDay) done
               ++ [(k, Fin (forceOf (IZR julianDay) k))])
        with (forcesOf (IZR julianDay) (done ++ [k]))
        by (unfold forcesOf; now rewrite map_app).
      cbn [add]. rewrite IH.
      * rewrite <- app_assoc. cbn [app map Rsum fold_right].
        unfold Rsum. fin_eq. lra.
      * now rewrite <- app_assoc.
      * intros k' Hk'. apply Hin. now right.
    + rewrite keys_forcesOf. apply NoDup_remove_2 in Hnd.
      intros Hd. apply Hnd. apply in_or_app. now left.
Qed.

Lemma force_forcesOf (jd : R) (names : list string) (k : string) :
  In k names -> force (forcesOf jd names) k = Fin (forceOf jd k).
Proof.
  intros Hin. unfold force.
  induction names as [| n names IH]; [contradiction |].
  cbn [forcesOf map prop]. destruct (String.eqb_spec n k) as [-> | Hne].
  - reflexivity.
  - destruct Hin as [E | Hin]; [contradiction |]. now apply IH.
Qed.

(** The reduction keeps the first of the greatest forces met so far. *)
Lemma fold_dominantStep (jd : R) (names rest : list string) :
  forall (before after : list string) (max : string),
    names = before ++ max :: after ++ rest ->
    (forall k, In k before -> forceOf jd k < forceOf jd max) ->
    (forall k, In k after -> forceOf jd k <= forceOf jd max) ->
    exists before' after',
      names = before' ++ fold_left (dominantStep (forcesOf jd names)) rest max
                      :: after'
      /\ (forall k, In k before' ->
            forceOf jd k
            < forceOf jd
                (fold_left (dominantStep (forcesOf jd names)) rest max))
      /\ (forall k, In k after' ->
            forceOf jd k
            <= forceOf jd
                 (fold_left (dominantStep (forcesOf jd names)) rest max)).
Proof.
  induction rest as [| p rest IH]; intros before after max Hn Hb Ha.
  - exists before, after. cbn [fold_left]. rewrite app_nil_r in Hn. auto.
  - cbn [fold_left]. unfold dominantStep at 2 4 6.
    assert (Hp : In p names).
    { rewrite Hn. apply in_or_app. right. right. apply in_or_app. right.
      now left. }
    assert (Hm : In max names).
    { rewrite Hn. apply in_or_app. right. now left. }
    rewrite (force_forcesOf jd names p Hp), (force_forcesOf jd names max Hm).
    unfold gtb, ltb.
    destruct (Rlt_dec (forceOf jd max) (forceOf jd p)) as [Hlt | Hge].
    + apply (IH (before ++ max :: after) [] p).
      * rewrite Hn, <- app_assoc. reflexivity.
      * intros k Hk. apply in_app_or in Hk.
        destruct Hk as [Hk | [<- | Hk]];
          [specialize (Hb k Hk) | | specialize (Ha k Hk)]; lra.
      * intros k [].
    + apply (IH before (after ++ [p]) max).
      * rewrite Hn, <- app_assoc. reflexivity.
      * exact Hb.
      * intros k Hk. apply in_app_or in Hk.
        destruct Hk as [Hk | [<- | []]]; [now apply Ha | lra].
Qed.

Lemma Rsum_pos_member (f : string -> R) (names : list string) (m : string) :
  (forall k, In k names -> 0 < f k) -> In m names ->
  0 < f m <= Rsum (map f names).
Proof.
  intros Hpos Hm. induction names as [| n names IH]; [contradiction |].
  unfold Rsum in *. cbn [map fold_right].
  assert (Hrest : 0 <= fold_right Rplus 0 (map f names)).
  { clear IH Hm. induction names as [| n' names IH]; cbn; [lra |].
    assert (0 < f n') by (apply Hpos; right; now left).
    assert (0 <= fold_right Rplus 0 (map f names)).
    { apply IH. intros k [<- | Hk]; apply Hpos; [now left | right; now right]. }
    lra. }
  destruct Hm as [-> | Hm].
  - assert (0 < f m) by (apply Hpos; now left). lra.
  - assert (0 < f n) by (apply Hpos; now left).
    destruct IH as [H1 H2]; [intros k Hk; apply Hpos; now right | assumption |].
    lra.
Qed.

Lemma percentage_bounds (a t : R) :
  0 < a <= t -> 0 < a / t * 100 <= 100.
Proof.
  intros [Ha Hat]. assert (Ht : 0 < t) by lra.
  assert (H1 : 0 < a / t) by now apply Rdiv_lt_0_compat.
  assert (H2 : a / t <= 1).
  { apply Rmult_le_reg_r with t; [exact Ht |].
    replace (a / t * t) with a by (field; lra). lra. }
  lra.
Qed.

(** C2. For every date, [calculateFTRT] returns a record whose
    [normalizedIndex] is [min(totalForce / FTRT_REFERENCE_FORCE, 1)] and
    lies in [0, 1], whose [dominantPlanet] is the first entry of
    [individualForces] holding their maximum, and whose
    [dominantForcePercentage] lies in (0, 100]. *)
Theorem calculateFTRT_index_and_dominant (date : Date) :
  exists s,
    calculateFTRT date = Normal s
    /\ normalizedIndex s
       = min2 (div (totalForce s) (Fin FTRT_REFERENCE_FORCE)) (Fin 1)
    /\ (exists r, normalizedIndex s = Fin r /\ 0 <= r <= 1)
    /\ keys (individualForces s) = keys PLANETS
    /\ firstMaximum (individualForces s) (dominantPlanet s)
    /\ (exists p, dominantForcePercentage s = Fin p /\ 0 < p <= 100).
Proof.
  rewrite calculateFTRT_unfold. cbv zeta.
  set (jd := dateToJulianDay date).
  pose proof (fold_forcesStep jd (keys PLANETS) [] 0 PLANETS_keys_NoDup
                (fun k H => H)) as Hfold.
  cbn [app] in Hfold. change (forcesOf (IZR jd) []) with (@nil (string * num)) in Hfold.
  rewrite Hfold. rewrite keys_forcesOf.
  set (names := keys PLANETS) in *.
  set (total := 0 + Rsum (map (forceOf (IZR jd)) names)).
  assert (Hnames : exists k0 rest, names = k0 :: rest)
    by (do 2 eexists; reflexivity).
  destruct Hnames as (k0 & rest & Hnames).
  assert (Hpos : forall k, In k names -> 0 < forceOf (IZR jd) k).
  { intros k Hk. now apply calculatePlanetaryTidalForce_known. }
  destruct (fold_dominantStep (IZR jd) names rest [] [] k0)
    as (before & after & Hsplit & Hbefore & Hafter).
  { exact Hnames. }
  { intros k []. }
  { intros k []. }
  set (m := fold_left (dominantStep (forcesOf (IZR jd) names)) rest k0) in *.
  assert (Hm : In m names).
  { rewrite Hsplit. apply in_or_app. right. now left. }
  destruct (Rsum_pos_member (forceOf (IZR jd)) names m Hpos Hm)
    as [Hm0 Hmt].
  assert (Htotal : 0 < forceOf (IZR jd) m <= total)
    by (subst total; lra).
  assert (Hred : forall l, l = k0 :: rest ->
            reduce (dominantStep (forcesOf (IZR jd) names)) l = Normal m)
    by (intros l ->; reflexivity).
  rewrite (Hred names Hnames). cbn [bind].
  eexists. split; [reflexivity |].
  cbn [normalizedIndex totalForce individualForces dominantPlanet
       dominantForcePercentage].
  split; [reflexivity |]. split; [| split; [| split]].
  - rewrite div_Fin by (unfold FTRT_REFERENCE_FORCE; lra).
    rewrite min2_Fin. eexists. split; [reflexivity |].
    assert (0 < total / FTRT_REFERENCE_FORCE).
    { apply Rdiv_lt_0_compat; [lra | unfold FTRT_REFERENCE_FORCE; lra]. }
    split; [apply Rmin_glb; lra | apply Rmin_r].
  - apply keys_forcesOf.
  - exists (forcesOf (IZR jd) before), (forcesOf (IZR jd) after),
      (forceOf (IZR jd) m).
    split.
    + rewrite Hsplit at 1. unfold forcesOf. rewrite map_app. reflexivity.
    + split; apply Forall_forall; intros [k f] Hkf;
        unfold forcesOf in Hkf; apply in_map_iff in Hkf;
        destruct Hkf as (k' & [= <- <-] & Hk'); cbn [snd];
        eexists; (split; [reflexivity |]); auto.
  - rewrite (force_forcesOf (IZR jd) names m Hm).
    rewrite div_Fin by lra. cbn [mul].
    eexists. split; [reflexivity |]. now apply percentage_bounds.
Qed.

End Tidal.

(** ** Julian days *)

Section JulianDays.
Import DateHelpers.
Local Open Scope Z_scope.

(** The three divisions of [julianDayToDate] undo the three sums of
    [dateToJulianDay]: of centuries, of years in a century, of months in a
    year that starts in March. *)

Lemma century_split B c0 :
  0 <= c0 <= 36524 -> (c0 = 36524 -> B mod 4 = 3) ->
  let a := 36524 * B + B / 4 + c0 in
  (4 * a + 3) / 146097 = B /\ a - 146097 * B / 4 = c0.
Proof.
  intros H1 H2 a. subst a. split; Z.div_mod_to_equations; lia.
Qed.

Lemma year_split d0 e :
  0 <= d0 -> 0 <= e <= 365 -> (e = 365 -> d0 mod 4 = 3) ->
  let c := 365 * d0 + d0 / 4 + e in
  (4 * c + 3) / 1461 = d0 /\ c - 1461 * d0 / 4 = e.
Proof.
  intros H0 H1 H2 c. subst c. split; Z.div_mod_to_equations; lia.
Qed.

Lemma month_split m D :
  0 <= m <= 11 -> 1 <= D <= 31 ->
  (m = 1 \/ m = 3 \/ m = 6 \/ m = 8 -> D <= 30) ->
  (m = 11 -> D <= 29) ->
  let e := (153 * m + 2) / 5 + D - 1 in
  (5 * e + 2) / 153 = m /\ 0 <= e <= 365 /\ (e = 365 -> m = 11 /\ D = 29).
Proof.
  intros Hm HD H30 H29 e. subst e.
  assert (HM' : m = 0 \/ m = 1 \/ m = 2 \/ m = 3 \/ m = 4 \/ m = 5 \/ m = 6
                \/ m = 7 \/ m = 8 \/ m = 9 \/ m = 10 \/ m = 11) by lia.
  destruct HM' as [->|[->|[->|[->|[->|[->|[->|[->|[->|[->|[->| ->]]]]]]]]]]]; 
   (change ((153 * 0 + 2) / 5) with 0 || change ((153 * 1 + 2) / 5) with 31 || change ((153 * 2 + 2) / 5) with 61
    || change ((153 * 3 + 2) / 5) with 92 || change ((153 * 4 + 2) / 5) with 122 || change ((153 * 5 + 2) / 5) with 153
    || change ((153 * 6 + 2) / 5) with 184 || change ((153 * 7 + 2) / 5) with 214 || change ((153 * 8 + 2) / 5) with 245 
    || change ((153 * 9 + 2) / 5) with 275 || change ((153 * 10 + 2) / 5) with 306 || change ((153 * 11 + 2) / 5) with 337);
   (split; [Z.div_mod_to_equations; lia | lia]).
Qed.

Lemma leap_facts Y : isLeap Y = true ->
  Y mod 4 = 0 /\ (Y mod 100 = 0 -> Y mod 400 = 0).
Proof.
  unfold isLeap. intros H.
  apply orb_true_iff in H. destruct H as [H|H].
  - apply andb_true_iff in H. destruct H as [H1 H2].
    apply Z.eqb_eq in H1. apply negb_true_iff in H2. apply Z.eqb_neq in H2.
    split; [exact H1 | intros; contradiction].
  - apply Z.eqb_eq in H. split; [|intros; exact H].
    Z.div_mod_to_equations; lia.
Qed.

Lemma daysInMonth_bounds Y M D :
  0 <= M <= 11 -> 1 <= D <= daysInMonth Y M ->
  D <= 31 /\ (M = 3 \/ M = 5 \/ M = 8 \/ M = 10 -> D <= 30) /\
  (M = 1 -> D <= 29) /\ (M = 1 -> D = 29 -> isLeap Y = true).
Proof.
  intros HM HD. unfold daysInMonth in HD.
  destruct (Z.eqb_spec M 1) as [->|H1].
  - destruct (isLeap Y); repeat split; intros; lia || reflexivity.
  - destruct (Z.eqb_spec M 3), (Z.eqb_spec M 5), (Z.eqb_spec M 8), (Z.eqb_spec M 10);
      cbn in HD; repeat split; intros; lia.
Qed.

Lemma julian_fields Y M D :
  0 <= M <= 11 -> 1 <= D <= daysInMonth Y M ->
  julianDayToDate (dateToJulianDay (mkDate Y M D)) = newDate Y M D.
Proof.
  intros HM HD.
  destruct (daysInMonth_bounds Y M D HM HD) as (H31 & H30 & H29 & Hleap).
  unfold julianDayToDate, dateToJulianDay. cbn [getFullYear getMonth getDate]. cbv zeta.
  set (a := (14 - (M + 1)) / 12).
  assert (Ha : a = if M <=? 1 then 1 else 0).
  { subst a. destruct (Z.leb_spec M 1); Z.div_mod_to_equations; lia. }
  set (y := Y + 4800 - a).
  set (m := M + 1 + 12 * a - 3).
  set (A := D + (153 * m + 2) / 5 + 365 * y + y / 4 - y / 100 + y / 400 - 32045 + 32044).
  assert (Hm : 0 <= m <= 11 /\ (M <= 1 -> m = M + 10) /\ (1 < M -> m = M - 2)).
  { subst m. rewrite Ha. destruct (Z.leb_spec M 1); lia. }
  destruct Hm as (Hm & Hm1 & Hm2).
  set (e := (153 * m + 2) / 5 + D - 1).
  destruct (month_split m D Hm ltac:(lia) ltac:(lia) ltac:(lia)) as (Em & He & He365).
  fold e in Em, He, He365.
  set (B := y / 100). set (d0 := y mod 100).
  assert (Hy : y = 100 * B + d0 /\ 0 <= d0 <= 99).
  { subst B d0. Z.div_mod_to_equations; lia. }
  destruct Hy as (Hy & Hd0).
  set (c0 := 365 * d0 + d0 / 4 + e).
  assert (Hfeb : e = 365 -> y mod 4 = 3 /\ (d0 = 99 -> B mod 4 = 3)).
  { intros E. destruct (He365 E) as (-> & ->).
    assert (M = 1) as -> by lia.
    destruct (leap_facts Y (Hleap eq_refl eq_refl)) as (L4 & L100).
    assert (a = 1) as Ea by (rewrite Ha; reflexivity).
    split.
    - subst y. rewrite Ea. Z.div_mod_to_equations; lia.
    - intros E99. assert (Y mod 100 = 0) as L by (subst d0 y; rewrite Ea in *; Z.div_mod_to_equations; lia).
      specialize (L100 L). subst B y. rewrite Ea. Z.div_mod_to_equations; lia. }
  assert (Hjd : A = 36524 * B + B / 4 + c0).
  { subst A c0 e. change (y / 100) with B. clearbody B d0 y m. Z.div_mod_to_equations; lia. }
  rewrite Hjd.
  destruct (century_split B c0) as (Eb & Ec).
  { subst c0. Z.div_mod_to_equations; lia. }
  { intros E. apply Hfeb; subst c0; Z.div_mod_to_equations; lia. }
  cbv zeta in Eb, Ec. rewrite Eb, Ec.
  destruct (year_split d0 e) as (Ed & Ee); [lia | lia | |].
  { intros E. destruct (Hfeb E) as (H4 & _). rewrite Hy in H4. clearbody d0 B. Z.div_mod_to_equations; lia. }
  cbv zeta in Ed, Ee. fold c0 in Ed, Ee. rewrite Ed, Ee, Em.
  f_equal.
  - rewrite <- Hy. subst y. rewrite Ha. destruct (Z.leb_spec M 1); Z.div_mod_to_equations; lia.
  - destruct (Z.leb_spec M 1); Z.div_mod_to_equations; lia.
  - subst e. lia.
Qed.

Lemma carryDays_valid (fuel : nat) (y m d : Z) :
  1 <= d <= daysInMonth y m -> carryDays (S fuel) y m d = mkDate y m d.
Proof.
  intros H. cbn [carryDays].
  destruct (Z.ltb_spec d 1); [lia |].
  destruct (Z.ltb_spec (daysInMonth y m) d); [lia | reflexivity].
Qed.

Lemma carryDays_over (fuel : nat) (y m d : Z) :
  1 <= d -> daysInMonth y m < d ->
  carryDays (S fuel) y m d
  = carryDays fuel (if m =? 11 then y + 1 else y)
      (if m =? 11 then 0 else m + 1) (d - daysInMonth y m).
Proof.
  intros H1 H2. cbn [carryDays].
  destruct (Z.ltb_spec d 1); [lia |].
  destruct (Z.ltb_spec (daysInMonth y m) d); [reflexivity | lia].
Qed.

Lemma newDate_valid (Y M D : Z) :
  validDate (mkDate Y M D) -> ~ 0 <= Y <= 99 ->
  newDate Y M D = mkDate Y M D.
Proof.
  intros [HM HD] HY. cbn [getFullYear getMonth getDate] in HM, HD.
  unfold newDate.
  assert (E : (0 <=? Y) && (Y <=? 99) = false).
  { destruct (Z.leb_spec 0 Y), (Z.leb_spec Y 99); try reflexivity. lia. }
  rewrite E. rewrite Z.div_small, Z.mod_small, Z.add_0_r by lia.
  now apply carryDays_valid.
Qed.

(** The round trip, for the years the Date constructor takes as they
    are. *)
Lemma julianDay_roundtrip (d : Date) :
  validDate d -> ~ 0 <= getFullYear d <= 99 ->
  julianDayToDate (dateToJulianDay d) = d.
Proof.
  destruct d as [Y M D]. intros Hv HY.
  destruct Hv as [HM HD]. cbn [getFullYear getMonth getDate] in HM, HD, HY.
  rewrite julian_fields by assumption.
  apply newDate_valid; [split; assumption | assumption].
Qed.

(** A year from 0 to 99 comes back as a year of the twentieth century. *)
Lemma julianDay_roundtrip_century (d : Date) :
  validDate d -> 0 <= getFullYear d <= 99 ->
  getFullYear (julianDayToDate (dateToJulianDay d)) = 1900 + getFullYear d.
Proof.
  destruct d as [Y M D]. intros [HM HD] HY.
  cbn [getFullYear getMonth getDate] in HM, HD, HY |- *.
  rewrite julian_fields by assumption. unfold newDate.
  assert (E : (0 <=? Y) && (Y <=? 99) = true).
  { destruct (Z.leb_spec 0 Y), (Z.leb_spec Y 99); try reflexivity; lia. }
  rewrite E. rewrite Z.div_small, Z.mod_small, Z.add_0_r by lia.
  destruct (Z.le_gt_cases D (daysInMonth (1900 + Y) M)) as [Hle | Hgt].
  - rewrite carryDays_valid by lia. reflexivity.
  - assert (HFeb : M = 1 /\ D = 29 /\ daysInMonth (1900 + Y) 1 = 28).
    { unfold daysInMonth in HD, Hgt |- *.
      destruct (Z.eqb_spec M 1) as [-> | HM1].
      - cbn [Z.eqb Pos.eqb] in *.
        destruct (isLeap Y), (isLeap (1900 + Y)); lia.
      - destruct ((M =? 3) || (M =? 5) || (M =? 8) || (M =? 10)); lia. }
    destruct HFeb as (-> & -> & H28).
    change (S (Z.to_nat (Z.abs 29))) with (S (S 28)).
    rewrite carryDays_over by lia. rewrite H28.
    change (1 =? 11) with false. cbv iota.
    rewrite carryDays_valid; [reflexivity |].
    change (daysInMonth (1900 + Y) (1 + 1)) with 31. lia.
Qed.

(** C3, at an input where the code departs from it: the 15th of June of
    the year 50 is a date of the calendar, and it comes back as the 15th of
    June 1950, since the Date constructor reads a year from 0 to 99 as a
    year of the twentieth century. *)
Theorem julianDay_roundtrip_two_digit_year :
  validDate (mkDate 50 5 15)
  /\ dateToJulianDay (mkDate 50 5 15) = 1739488
  /\ julianDayToDate (dateToJulianDay (mkDate 50 5 15)) = mkDate 1950 5 15
  /\ julianDayToDate (dateToJulianDay (mkDate 50 5 15)) <> mkDate 50 5 15.
Proof.
  split; [| split; [| split]].
  - unfold validDate. cbn. lia.
  - reflexivity.
  - reflexivity.
  - discriminate.
Qed.

End JulianDays.

(** * Further properties of the code *)

(** ** Sorting *)

Section SortFacts.

Lemma insert_reals (v : R) (ys : list R) :
  insert (Num (Fin v)) (reals ys) = reals (Rinsert v ys).
Proof.
  induction ys as [| w ys IH]; [reflexivity |].
  change (reals (w :: ys)) with (Num (Fin w) :: reals ys).
  cbn [insert Rinsert toNumber sub neg add]. unfold gtb, ltb.
  destruct (Rlt_dec 0 (v + - w)), (Rlt_dec w v); try lra.
  - rewrite IH. reflexivity.
  - reflexivity.
Qed.

Lemma sort_reals (xs : list R) : sort (reals xs) = reals (Rsort xs).
Proof.
  induction xs as [| x xs IH]; [reflexivity |].
  change (reals (x :: xs)) with (Num (Fin x) :: reals xs).
  cbn [sort fold_right]. fold (sort (reals xs)). rewrite IH.
  apply insert_reals.
Qed.

Lemma Rinsert_perm (v : R) (ys : list R) : Permutation (v :: ys) (Rinsert v ys).
Proof.
  induction ys as [| w ys IH]; [reflexivity |].
  cbn [Rinsert]. destruct (Rlt_dec w v); [| reflexivity].
  rewrite perm_swap. now constructor.
Qed.

Lemma Rsort_perm (xs : list R) : Permutation xs (Rsort xs).
Proof.
  induction xs as [| x xs IH]; [reflexivity |].
  cbn [Rsort fold_right]. fold (Rsort xs).
  rewrite <- Rinsert_perm. now constructor.
Qed.

Lemma Rinsert_sorted (v : R) (ys : list R) :
  StronglySorted Rle ys -> StronglySorted Rle (Rinsert v ys).
Proof.
  induction 1 as [| w ys Hs IH Hall]; cbn [Rinsert].
  - repeat constructor.
  - destruct (Rlt_dec w v) as [Hlt | Hge].
    + constructor; [exact IH |].
      apply Forall_forall. intros z Hz.
      apply (Permutation_in _ (Permutation_sym (Rinsert_perm v ys))) in Hz.
      destruct Hz as [<- | Hz]; [lra |].
      rewrite Forall_forall in Hall. now apply Hall.
    + constructor; [now constructor |].
      constructor; [lra |].
      apply Forall_impl with (2 := Hall). intros z Hz. lra.
Qed.

Lemma Rsort_sorted (xs : list R) : StronglySorted Rle (Rsort xs).
Proof.
  induction xs as [| x xs IH]; [constructor |].
  cbn [Rsort fold_right]. now apply Rinsert_sorted.
Qed.

Lemma Rsort_length (xs : list R) : List.length (Rsort xs) = List.length xs.
Proof. symmetry. apply Permutation_length, Rsort_perm. Qed.

Lemma sorted_nth_le (ys : list R) (i j : nat) :
  StronglySorted Rle ys -> (i <= j < List.length ys)%nat ->
  nth i ys 0 <= nth j ys 0.
Proof.
  intros Hs. revert i j. induction Hs as [| y ys Hs IH Hall]; intros i j Hij.
  - cbn in Hij. lia.
  - destruct i as [| i], j as [| j]; cbn [nth]; cbn [List.length] in Hij.
    + lra.
    + rewrite Forall_forall in Hall. apply Hall, nth_In. lia.
    + lia.
    + apply IH. lia.
Qed.




Lemma nth_reals (i : nat) (ys : list R) :
  (i < List.length ys)%nat ->
  nth i (reals ys) Undefined = Num (Fin (nth i ys 0)).
Proof.
  intros H. unfold reals.
  rewrite (nth_indep _ Undefined (Num (Fin 0))) by now rewrite length_map.
  apply (map_nth (fun r => Num (Fin r))).
Qed.

Lemma get_reals (z : Z) (ys : list R) :
  (0 <= z < Z.of_nat (List.length ys))%Z ->
  get (reals ys) (Fin (IZR z)) = Num (Fin (nth (Z.to_nat z) ys 0)).
Proof.
  intros H. unfold get. rewrite index_IZR.
  destruct (Z.leb_spec 0 z); [| lia]. apply nth_reals. lia.
Qed.

End SortFacts.

(** ** Mean, percentiles and median *)

Section OrderStatistics.
Import Statistics.




(** Floor and ceiling of a position inside the array. *)
Lemma floor_ceil_inside (t : R) (n : nat) :
  0 <= t <= INR n - 1 ->
  (0 <= Zfloor t <= Zceil t)%Z
  /\ (Zceil t <= Zfloor t + 1)%Z
  /\ (Zceil t < Z.of_nat n)%Z
  /\ 0 <= t - IZR (Zfloor t) < 1
  /\ (Zceil t = Zfloor t -> t = IZR (Zfloor t)).
Proof.
  intros [H0 Hn].
  pose proof (Zfloor_bound t) as [Hf1 Hf2].
  pose proof (Zceil_bound t) as [Hc1 Hc2].
  rewrite INR_IZR_INZ in Hn.
  assert (Hf0 : (0 <= Zfloor t)%Z) by (apply Zfloor_lub; simpl; lra).
  assert (Hfc : (Zfloor t <= Zceil t)%Z) by (apply le_IZR; lra).
  assert (Hc : (Zceil t <= Zfloor t + 1)%Z).
  { assert (Zceil t - 1 < Zfloor t + 1)%Z; [| lia].
    apply lt_IZR. rewrite minus_IZR, plus_IZR. simpl. lra. }
  assert (Hcn : (Zceil t < Z.of_nat n)%Z).
  { assert (Zceil t - 1 < Z.of_nat n - 1)%Z; [| lia].
    apply lt_IZR. rewrite !minus_IZR. simpl. lra. }
  repeat split; try assumption; try lra.
  intros E. rewrite E in Hc2. lra.
Qed.

(** For [p] in [0, 100] the two reads of [percentile] are inside the
    sorted array: the result is the interpolation of two order
    statistics. *)
Lemma percentile_inside (xs : list R) (p : R) :
  xs <> [] -> 0 <= p <= 100 ->
  percentile (reals xs) (Fin p)
  = Fin (interpolate (Rsort xs) (p / 100 * (INR (List.length xs) - 1))).
Proof.
  intros Hne Hp. unfold percentile.
  destruct (reals xs) eqn:E; [destruct xs; [contradiction | discriminate] |].
  rewrite <- E. cbv zeta. rewrite percentile_index.
  set (t := p / 100 * (INR (List.length xs) - 1)).
  assert (Hn : 0 <= INR (List.length xs) - 1).
  { assert (1 <= List.length xs)%nat
      by (destruct xs; [contradiction | cbn; lia]).
    apply le_INR in H. change (INR 1) with 1 in H. lra. }
  assert (Ht : 0 <= t <= INR (List.length xs) - 1) by (subst t; nra).
  destruct (floor_ceil_inside t (List.length xs) Ht)
    as (Hf & Hc & Hcn & Hw & _).
  cbn [Math_floor Math_ceil]. rewrite sort_reals.
  rewrite !get_reals by (rewrite Rsort_length; lia).
  cbn [toNumber sub neg add mul]. unfold interpolate. fin_eq; lra.
Qed.


Lemma interpolate_integer (s : list R) (z : Z) :
  interpolate s (IZR z) = nth (Z.to_nat z) s 0.
Proof.
  unfold interpolate, Zceil.
  replace (- IZR z) with (IZR (- z)) by now rewrite opp_IZR.
  rewrite !ZfloorZ, Z.opp_involutive. lra.
Qed.





(** The interpolation grows with the position. *)
Lemma interpolate_monotone (s : list R) (n : nat) (t1 t2 : R) :
  StronglySorted Rle s -> List.length s = n ->
  0 <= t1 -> t1 <= t2 -> t2 <= INR n - 1 ->
  interpolate s t1 <= interpolate s t2.
Proof.
  intros Hs Hlen H0 H12 Hn.
  destruct (floor_ceil_inside t1 n ltac:(lra)) as (Hf1 & Hc1 & Hcn1 & Hw1 & Hi1).
  destruct (floor_ceil_inside t2 n ltac:(lra)) as (Hf2 & Hc2 & Hcn2 & Hw2 & Hi2).
  assert (Hff : (Zfloor t1 <= Zfloor t2)%Z) by now apply Zfloor_le.
  assert (Hmono : forall a b : Z,
             (0 <= a <= b)%Z -> (b < Z.of_nat n)%Z ->
             nth (Z.to_nat a) s 0 <= nth (Z.to_nat b) s 0).
  { intros a b Hab Hb. apply sorted_nth_le; [assumption | lia]. }
  pose proof (Hmono (Zfloor t1) (Zceil t1) ltac:(lia) ltac:(lia)) as Hs1.
  pose proof (Hmono (Zfloor t2) (Zceil t2) ltac:(lia) ltac:(lia)) as Hs2.
  unfold interpolate.
  set (a1 := nth (Z.to_nat (Zfloor t1)) s 0) in *.
  set (b1 := nth (Z.to_nat (Zceil t1)) s 0) in *.
  set (a2 := nth (Z.to_nat (Zfloor t2)) s 0) in *.
  set (b2 := nth (Z.to_nat (Zceil t2)) s 0) in *.
  set (w1 := t1 - IZR (Zfloor t1)) in *.
  set (w2 := t2 - IZR (Zfloor t2)) in *.
  assert (Hup1 : a1 * (1 - w1) + b1 * w1 <= b1) by nra.
  assert (Hlow2 : a2 <= a2 * (1 - w2) + b2 * w2) by nra.
  destruct (Z.eq_dec (Zfloor t1) (Zfloor t2)) as [Eff | Nff].
  - assert (Ea : a1 = a2) by (subst a1 a2; now rewrite Eff).
    assert (Hw : w1 <= w2) by (subst w1 w2; rewrite Eff; lra).
    destruct (Z.eq_dec (Zceil t1) (Zfloor t1)) as [Ei | Ni].
    + assert (Ew1 : w1 = 0) by (subst w1; rewrite (Hi1 Ei) at 1; lra).
      rewrite Ew1, Ea. lra.
    + assert (Ec1 : Zceil t1 = (Zfloor t1 + 1)%Z) by lia.
      assert (Ec2 : Zceil t2 = (Zfloor t2 + 1)%Z).
      { destruct (Z.eq_dec (Zceil t2) (Zfloor t2)) as [Ei2 | Ni2]; [| lia].
        exfalso. apply Ni.
        assert (Hz : t1 = IZR (Zfloor t1)).
        { specialize (Hi2 Ei2).
          assert (IZR (Zfloor t1) = IZR (Zfloor t2)) by now rewrite Eff.
          subst w1 w2. lra. }
        rewrite Hz at 1. unfold Zceil.
        replace (- IZR (Zfloor t1)) with (IZR (- Zfloor t1))
          by now rewrite opp_IZR.
        rewrite ZfloorZ. lia. }
      assert (Eb : b1 = b2) by (subst b1 b2; now rewrite Ec1, Ec2, Eff).
      rewrite Ea, Eb in *. nra.
  - assert (Hcf : (Zceil t1 <= Zfloor t2)%Z) by lia.
    pose proof (Hmono (Zceil t1) (Zfloor t2) ltac:(lia) ltac:(lia)) as Hmid.
    fold b1 a2 in Hmid. lra.
Qed.

Lemma quartiles_reals (xs : list R) :
  exists q1 q2 q3,
    quartiles (reals xs) = mkQuartiles (Fin q1) (Fin q2) (Fin q3)
    /\ q1 <= q2 <= q3.
Proof.
  destruct xs as [| x0 xs0] eqn:Exs.
  - exists 0, 0, 0. split; [reflexivity | lra].
  - rewrite <- Exs.
    assert (Hne : xs <> []) by (rewrite Exs; discriminate).
    clear Exs x0 xs0.
    assert (Hlen : (1 <= List.length xs)%nat)
      by (destruct xs; [contradiction | cbn; lia]).
    assert (Hn : 0 <= INR (List.length xs) - 1).
    { apply le_INR in Hlen. change (INR 1) with 1 in Hlen. lra. }
    unfold quartiles. rewrite !percentile_inside by (assumption || lra).
    do 3 eexists. split; [reflexivity |].
    split; apply (interpolate_monotone _ (List.length xs));
      try apply Rsort_sorted; try apply Rsort_length; nra.
Qed.


(** X5. With a non-negative multiplier, every index [detectOutliers]
    reports is a position of the array whose value lies strictly below
    [Q1] or strictly above [Q3]: no value between the quartiles is reported
    as an outlier. *)
Theorem detectOutliers_outside_quartiles (xs : list R) (m : R) (i : nat) :
  0 <= m ->
  In i (detectOutliers (reals xs) (Fin m)) ->
  (i < List.length xs)%nat
  /\ exists q1 q3,
       Q1 (quartiles (reals xs)) = Fin q1
       /\ Q3 (quartiles (reals xs)) = Fin q3
       /\ (nth i xs 0 < q1 \/ q3 < nth i xs 0).
Proof.
  intros Hm Hin.
  destruct (quartiles_reals xs) as (q1 & q2 & q3 & Hq & Hord).
  unfold detectOutliers, iqr in Hin. rewrite Hq in Hin.
  cbn [Q1 Q3 sub neg add mul] in Hin.
  apply filter_In in Hin. destruct Hin as [Hi Hout].
  apply in_seq in Hi. rewrite reals_length in Hi.
  split; [lia |].
  exists q1, q3. rewrite Hq. repeat split.
  rewrite nth_reals in Hout by lia. cbn [toNumber] in Hout.
  unfold gtb, ltb in Hout.
  assert (0 <= m * (q3 + - q1)) by nra.
  apply orb_true_iff in Hout. destruct Hout as [Hout | Hout].
  - destruct (Rlt_dec _ _) in Hout; [left; lra | discriminate].
  - destruct (Rlt_dec _ _) in Hout; [right; lra | discriminate].
Qed.

Lemma detectOutliers_outside_quartiles_witness :
  (4 < List.length [1; 2; 3; 4; 100])%nat
  /\ exists q1 q3,
       Q1 (quartiles (reals [1; 2; 3; 4; 100])) = Fin q1
       /\ Q3 (quartiles (reals [1; 2; 3; 4; 100])) = Fin q3
       /\ (nth 4 [1; 2; 3; 4; 100] 0 < q1 \/ q3 < nth 4 [1; 2; 3; 4; 100] 0).
Proof.
  apply (detectOutliers_outside_quartiles [1; 2; 3; 4; 100] 1.5 4).
  - lra.
  - destruct (quartiles_reals [1; 2; 3; 4; 100]) as (q1 & q2 & q3 & Hq & Hord).
    assert (Hq3 : percentile (reals [1; 2; 3; 4; 100]) (Fin 75) = Fin 4).
    { rewrite percentile_inside by (discriminate || lra).
      replace (75 / 100 * (INR (List.length [1; 2; 3; 4; 100]) - 1))
        with (IZR 3) by (simpl; lra).
      rewrite interpolate_integer.
      assert (Es : Rsort [1; 2; 3; 4; 100] = [1; 2; 3; 4; 100]).
      { unfold Rsort. cbn [fold_right Rinsert].
        repeat (destruct (Rlt_dec _ _); try lra; cbn [Rinsert]);
          reflexivity. }
      rewrite Es. reflexivity. }
    assert (Hq1 : percentile (reals [1; 2; 3; 4; 100]) (Fin 25) = Fin 2).
    { rewrite percentile_inside by (discriminate || lra).
      replace (25 / 100 * (INR (List.length [1; 2; 3; 4; 100]) - 1))
        with (IZR 1) by (simpl; lra).
      rewrite interpolate_integer.
      assert (Es : Rsort [1; 2; 3; 4; 100] = [1; 2; 3; 4; 100]).
      { unfold Rsort. cbn [fold_right Rinsert].
        repeat (destruct (Rlt_dec _ _); try lra; cbn [Rinsert]);
          reflexivity. }
      rewrite Es. reflexivity. }
    unfold detectOutliers, iqr, quartiles. rewrite Hq1, Hq3.
    cbn [Q1 Q3 sub neg add mul].
    apply filter_In. split; [apply in_seq; cbn; lia |].
    change (nth 4 (reals [1; 2; 3; 4; 100]) Undefined) with (Num (Fin 100)).
    cbn [toNumber]. unfold gtb. rewrite (ltb_Fin_true (4 + 1.5 * (4 + - (2)))) by lra.
    apply orb_true_r.
Defined.

End OrderStatistics.

(** ** Spread: deviation, variance, z-scores, confidence interval *)

Section Spread.
Import Statistics.
















End Spread.

(** ** Series: running sums, changes, smoothing *)

Section Series.
Import Statistics.

Lemma cumulativeSum_fold (xs : list R) :
  forall (a : R) (out : array),
    fold_left
      (fun '(sum, out) val =>
         let sum := add sum (toNumber val) in (sum, out ++ [Num sum]))
      (reals xs) (Fin a, out)
    = (Fin (a + Rsum xs),
       out ++ reals (map (fun k => a + Rsum (firstn (S k) xs))
                         (seq 0 (List.length xs)))).
Proof.
  induction xs as [| x xs IH]; intros a out.
  - cbn. rewrite app_nil_r. fin_eq; lra.
  - change (reals (x :: xs)) with (Num (Fin x) :: reals xs).
    cbn [fold_left toNumber add]. rewrite IH.
    cbn [List.length seq map]. rewrite <- seq_shift, map_map.
    change (reals (?h :: ?t)) with (Num (Fin h) :: reals t).
    rewrite <- app_assoc. cbn [app].
    f_equal.
    + unfold Rsum. cbn [fold_right]. fin_eq; lra.
    + f_equal. f_equal.
      * unfold Rsum. cbn [firstn fold_right]. do 2 f_equal. lra.
      * unfold reals. rewrite !map_map. apply map_ext. intros k.
        unfold Rsum. cbn [firstn fold_right]. do 2 f_equal. lra.
Qed.

(** X10. The k-th entry of [cumulativeSum] of an array of reals is the sum
    of its first k + 1 elements: the result has the length of the input and
    its last entry is the total. *)
Theorem cumulativeSum_prefix_sums (xs : list R) :
  cumulativeSum (reals xs)
  = reals (map (fun k => Rsum (firstn (S k) xs)) (seq 0 (List.length xs)))
  /\ List.length (cumulativeSum (reals xs)) = List.length xs
  /\ (xs <> [] ->
      nth (List.length xs - 1) (cumulativeSum (reals xs)) Undefined
      = Num (Fin (Rsum xs))).
Proof.
  assert (E : cumulativeSum (reals xs)
              = reals (map (fun k => Rsum (firstn (S k) xs))
                           (seq 0 (List.length xs)))).
  { unfold cumulativeSum.
    etransitivity;
      [apply (f_equal snd); apply (cumulativeSum_fold xs 0 []) |].
    cbn [snd app]. unfold reals. rewrite !map_map. apply map_ext.
    intros k. do 2 f_equal. lra. }
  split; [exact E |]. rewrite E. split.
  - now rewrite reals_length, length_map, length_seq.
  - intros Hne.
    assert (Hlen : (1 <= List.length xs)%nat)
      by (destruct xs; [contradiction | cbn; lia]).
    rewrite nth_reals by (rewrite length_map, length_seq; lia).
    rewrite (nth_indep _ 0 (Rsum (firstn (S 0) xs)))
      by (rewrite length_map, length_seq; lia).
    rewrite (map_nth (fun k => Rsum (firstn (S k) xs))).
    rewrite seq_nth by lia. cbn [Nat.add].
    replace (S (List.length xs - 1)) with (List.length xs) by lia.
    now rewrite firstn_all.
Qed.

Lemma cumulativeSum_prefix_sums_witness :
  nth (List.length [1; 2; 4] - 1) (cumulativeSum (reals [1; 2; 4])) Undefined
  = Num (Fin (Rsum [1; 2; 4])).
Proof.
  apply (proj2 (proj2 (cumulativeSum_prefix_sums [1; 2; 4]))).
  discriminate.
Defined.










End Series.

(** ** Histogram and mode *)

Section Counting.
Import Statistics.


Lemma totalCount_app (h1 h2 : list bin) :
  totalCount (h1 ++ h2) = (totalCount h1 + totalCount h2)%nat.
Proof. unfold totalCount. now rewrite map_app, list_sum_app. Qed.






Lemma mode_unfold (first : value) (rest : array) :
  mode (first :: rest)
  = let '(_, _, modeValue) :=
      fold_left modeStep (first :: rest) ([], 0%nat, first) in
    modeValue.
Proof. reflexivity. Qed.

Lemma sameKey_eq (v w : value) : sameKey v w = true <-> v = w.
Proof.
  destruct v as [[| | | a] | |], w as [[| | | b] | |]; cbn [sameKey eqb];
    try (split; [discriminate | intros [=]]);
    try (split; reflexivity).
  destruct (Req_dec_T a b) as [-> | Hne].
  - split; reflexivity.
  - split; [discriminate | intros [= E]; contradiction].
Qed.

Lemma frequencyOf_setFrequency (frequency : list (value * nat))
  (v w : value) (c : nat) :
  frequencyOf (setFrequency frequency v c) w
  = if sameKey v w then c else frequencyOf frequency w.
Proof.
  induction frequency as [| [k d] frequency IH]; cbn [setFrequency frequencyOf].
  - destruct (sameKey v w); reflexivity.
  - destruct (sameKey k v) eqn:Ekv; cbn [frequencyOf].
    + apply sameKey_eq in Ekv. subst k.
      destruct (sameKey v w); reflexivity.
    + destruct (sameKey k w) eqn:Ekw; [| exact IH].
      apply sameKey_eq in Ekw. subst k.
      destruct (sameKey v w) eqn:Evw; [| reflexivity].
      apply sameKey_eq in Evw. subst v.
      rewrite (proj2 (sameKey_eq w w) eq_refl) in Ekv. discriminate.
Qed.

Lemma sameKey_reals (x y : R) :
  sameKey (Num (Fin x)) (Num (Fin y)) = if Req_dec_T x y then true else false.
Proof. reflexivity. Qed.

(** What the loop of [mode] keeps: the frequencies are the numbers of
    occurrences so far, [maxFreq] is the greatest of them, and the current
    mode is an element that occurs [maxFreq] times. *)
Lemma modeStep_invariant (xs : list R) :
  forall (seen : list R) (frequency : list (value * nat)) (maxFreq : nat)
         (m : R),
    (forall x, frequencyOf frequency (Num (Fin x)) = occurrences seen x) ->
    (forall x, (occurrences seen x <= maxFreq)%nat) ->
    (seen <> [] -> occurrences seen m = maxFreq) ->
    (seen = [] -> maxFreq = 0%nat) ->
    xs <> [] \/ seen <> [] ->
    exists frequency' maxFreq' m',
      fold_left modeStep (reals xs) (frequency, maxFreq, Num (Fin m))
      = (frequency', maxFreq', Num (Fin m'))
      /\ (forall x, (occurrences (seen ++ xs) x <= maxFreq')%nat)
      /\ occurrences (seen ++ xs) m' = maxFreq'.
Proof.
  induction xs as [| x xs IH];
    intros seen frequency maxFreq m Hfreq Hmax Hmode Hzero Hne.
  - destruct Hne as [Hne | Hne]; [contradiction |].
    exists frequency, maxFreq, m. rewrite app_nil_r. cbn. auto.
  - change (reals (x :: xs)) with (Num (Fin x) :: reals xs).
    cbn [fold_left]. unfold modeStep at 2.
    rewrite (Hfreq x).
    assert (Hocc : forall y,
               occurrences (seen ++ [x]) y
               = if Req_dec_T x y then S (occurrences seen y)
                 else occurrences seen y).
    { intros y. unfold occurrences. rewrite count_occ_app. cbn [count_occ].
      destruct (Req_dec_T x y); lia. }
    assert (Hfreq' : forall y,
               frequencyOf
                 (setFrequency frequency (Num (Fin x))
                    (S (occurrences seen x))) (Num (Fin y))
               = occurrences (seen ++ [x]) y).
    { intros y. rewrite frequencyOf_setFrequency, sameKey_reals, Hocc.
      destruct (Req_dec_T x y) as [<- |]; [reflexivity | apply Hfreq]. }
    replace (seen ++ x :: xs) with ((seen ++ [x]) ++ xs)
      by (rewrite <- app_assoc; reflexivity).
    assert (Hne' : seen ++ [x] <> []) by (destruct seen; discriminate).
    destruct (Nat.ltb_spec maxFreq (S (occurrences seen x))) as [Hlt | Hge].
    + apply (IH (seen ++ [x]) _ (S (occurrences seen x)) x).
      * exact Hfreq'.
      * intros y. rewrite Hocc. specialize (Hmax y).
        destruct (Req_dec_T x y) as [<- |]; lia.
      * intros _. rewrite Hocc.
        destruct (Req_dec_T x x); [reflexivity | contradiction].
      * intros E. contradiction.
      * now right.
    + apply (IH (seen ++ [x]) _ maxFreq m).
      * exact Hfreq'.
      * intros y. rewrite Hocc. specialize (Hmax y).
        destruct (Req_dec_T x y) as [<- |]; lia.
      * intros _.
        assert (Hs : seen <> []).
        { intros ->. specialize (Hzero eq_refl). lia. }
        specialize (Hmode Hs). rewrite Hocc.
        destruct (Req_dec_T x m) as [-> |]; [lia | exact Hmode].
      * intros E. contradiction.
      * now right.
Qed.

(** X14. The mode of a non-empty array of reals is one of its elements,
    and no element occurs more often. *)
Theorem mode_is_most_frequent (xs : list R) :
  xs <> [] ->
  exists m,
    mode (reals xs) = Num (Fin m)
    /\ In m xs
    /\ forall x, (occurrences xs x <= occurrences xs m)%nat.
Proof.
  intros Hne. destruct xs as [| x0 xs]; [contradiction |].
  change (reals (x0 :: xs)) with (Num (Fin x0) :: reals xs).
  rewrite mode_unfold.
  change (Num (Fin x0) :: reals xs) with (reals (x0 :: xs)).
  destruct (modeStep_invariant (x0 :: xs) [] [] 0%nat x0)
    as (frequency' & maxFreq' & m' & Hfold & Hmax & Hmode).
  - intros x. reflexivity.
  - intros x. cbn. lia.
  - intros E. contradiction.
  - reflexivity.
  - left. discriminate.
  - rewrite Hfold. cbn [app] in Hmax, Hmode.
    exists m'. split; [reflexivity |]. split.
    + pose proof (Hmax x0) as H0.
      assert (H1 : (1 <= occurrences (x0 :: xs) x0)%nat).
      { unfold occurrences. cbn [count_occ].
        destruct (Req_dec_T x0 x0); [lia | contradiction]. }
      apply (count_occ_In Req_dec_T). fold (occurrences (x0 :: xs) m'). lia.
    + intros x. rewrite Hmode. apply Hmax.
Qed.

Lemma mode_is_most_frequent_witness :
  exists m,
    mode (reals [1; 2; 2]) = Num (Fin m)
    /\ In m [1; 2; 2]
    /\ forall x,
         (occurrences [1; 2; 2]%R x <= occurrences [1; 2; 2]%R m)%nat.
Proof.
  apply (mode_is_most_frequent [1; 2; 2]). discriminate.
Defined.

End Counting.

(** ** More on the Pearson coefficient *)

Section PearsonBounds.
Import Correlations.

Lemma Rdot_sym (mx my : R) (xs : list R) :
  forall ys, Rdot mx my xs ys = Rdot my mx ys xs.
Proof.
  unfold Rdot, Rsum. induction xs as [| x xs IH]; intros [| y ys];
    try reflexivity.
  cbn [combine map fold_right fst snd]. rewrite IH. ring.
Qed.






(** X16. The Pearson coefficient is symmetric: on arrays of reals
    [pearsonCorrelation(x, y)] and [pearsonCorrelation(y, x)] complete the
    same way, with the same error or the same number. *)
Theorem pearsonCorrelation_symmetric (xs ys : list R) :
  pearsonCorrelation (reals xs) (reals ys)
  = pearsonCorrelation (reals ys) (reals xs).
Proof.
  destruct (Nat.eq_dec (List.length xs) (List.length ys)) as [Hlen | Hlen].
  - destruct xs as [| x xs'] eqn:Ex.
    + destruct ys; [reflexivity | discriminate].
    + rewrite <- Ex in *.
      assert (Hne : xs <> []) by (rewrite Ex; discriminate).
      assert (Hney : ys <> [])
        by (intros ->; rewrite Ex in Hlen; discriminate).
      rewrite (pearsonCorrelation_reals xs ys) by assumption.
      rewrite (pearsonCorrelation_reals ys xs) by (assumption || now symmetry).
      cbv zeta. rewrite (Rdot_sym (Rmean ys) (Rmean xs) ys xs).
      rewrite (Rmult_comm (Rsq (Rmean ys) ys)), orb_comm. reflexivity.
  - rewrite !pearsonCorrelation_unfold, !reals_length.
    assert (E1 : Nat.eqb (List.length xs) (List.length ys) = false)
      by now apply Nat.eqb_neq.
    assert (E2 : Nat.eqb (List.length ys) (List.length xs) = false)
      by (apply Nat.eqb_neq; congruence).
    rewrite E1, E2. reflexivity.
Qed.

End PearsonBounds.

(** ** Lag search *)

Section LagSearch.
Import Correlations.

Lemma optimalStep_finite (max current : lagResult) :
  finiteCorrelation max -> finiteCorrelation current ->
  optimalStep max current
  = if Rlt_dec (absCorrelation max) (absCorrelation current)
    then current else max.
Proof.
  intros [cm Hm] [cc Hc]. unfold optimalStep, absCorrelation.
  rewrite Hm, Hc. cbn [Math_abs]. unfold gtb, ltb.
  destruct (Rlt_dec (Rabs cm) (Rabs cc)); reflexivity.
Qed.

Lemma fold_optimalStep (rest : list lagResult) :
  forall (before after : list lagResult) (max : lagResult),
    Forall finiteCorrelation (before ++ max :: after ++ rest) ->
    Forall (fun r => absCorrelation r < absCorrelation max) before ->
    Forall (fun r => absCorrelation r <= absCorrelation max) after ->
    exists before' after',
      before ++ max :: after ++ rest
      = before' ++ fold_left optimalStep rest max :: after'
      /\ Forall (fun r => absCorrelation r
                          < absCorrelation (fold_left optimalStep rest max))
                before'
      /\ Forall (fun r => absCorrelation r
                          <= absCorrelation (fold_left optimalStep rest max))
                after'.
Proof.
  induction rest as [| p rest IH]; intros before after max Hfin Hb Ha.
  - exists before, after. rewrite app_nil_r. cbn [fold_left]. auto.
  - cbn [fold_left].
    assert (Hp : finiteCorrelation p).
    { rewrite Forall_forall in Hfin. apply Hfin.
      apply in_or_app. right. right. apply in_or_app. right. now left. }
    assert (Hm : finiteCorrelation max).
    { rewrite Forall_forall in Hfin. apply Hfin.
      apply in_or_app. right. now left. }
    rewrite (optimalStep_finite max p Hm Hp).
    destruct (Rlt_dec (absCorrelation max) (absCorrelation p)) as [Hlt | Hge].
    + replace (before ++ max :: after ++ p :: rest)
        with ((before ++ max :: after) ++ p :: [] ++ rest)
        by (rewrite <- app_assoc; reflexivity).
      apply IH.
      * rewrite <- app_assoc. exact Hfin.
      * apply Forall_app. split.
        -- apply Forall_impl with (2 := Hb). intros r Hr. lra.
        -- constructor; [exact Hlt |].
           apply Forall_impl with (2 := Ha). intros r Hr. lra.
      * constructor.
    + replace (before ++ max :: after ++ p :: rest)
        with (before ++ max :: (after ++ [p]) ++ rest)
        by (rewrite <- (app_assoc after); reflexivity).
      apply IH.
      * rewrite <- (app_assoc after). exact Hfin.
      * exact Hb.
      * apply Forall_app. split; [exact Ha |].
        constructor; [lra | constructor].
Qed.

(** X17. [findOptimalLag] throws a TypeError on the empty list; on a
    non-empty list of records with finite coefficients it returns the first
    record whose coefficient is greatest in absolute value: the records
    before it are strictly smaller, the records after it are not
    greater. *)
Theorem findOptimalLag_first_maximum :
  findOptimalLag [] = Throw TypeError /\
  forall results : list lagResult,
    results <> [] -> Forall finiteCorrelation results ->
    exists before best after,
      findOptimalLag results = Normal best
      /\ results = before ++ best :: after
      /\ Forall (fun r => absCorrelation r < absCorrelation best) before
      /\ Forall (fun r => absCorrelation r <= absCorrelation best) after.
Proof.
  split; [reflexivity |].
  intros [| first rest] Hne Hfin; [contradiction |].
  destruct (fold_optimalStep rest [] [] first Hfin)
    as (before & after & Hsplit & Hb & Ha); try constructor.
  exists before, (fold_left optimalStep rest first), after.
  split; [reflexivity |]. split; [exact Hsplit |]. split; assumption.
Qed.

Lemma findOptimalLag_first_maximum_witness :
  exists before best after,
    findOptimalLag [mkLagResult 0 (Fin 0.2) 3; mkLagResult 1 (Fin (-0.9)) 2]
    = Normal best
    /\ [mkLagResult 0 (Fin 0.2) 3; mkLagResult 1 (Fin (-0.9)) 2]
       = before ++ best :: after
    /\ Forall (fun r => absCorrelation r < absCorrelation best) before
    /\ Forall (fun r => absCorrelation r <= absCorrelation best) after.
Proof.
  apply (proj2 findOptimalLag_first_maximum).
  - discriminate.
  - repeat constructor; eexists; reflexivity.
Defined.



End LagSearch.

(** ** Coefficient of determination and regression *)

Section Regression.
Import Correlations.





















End Regression.

(** ** Autocorrelation *)

Section Autocorrelation.
Import Correlations.















End Autocorrelation.

(** ** Moving average *)

Section MovingAverage.
Import Correlations.












End MovingAverage.

(** ** Peaks of a series of numbers *)

Section SeriesPeaks.
Import Correlations.

Lemma detectPeaks_unfold (data : array) (threshold : num) (minDistance : Z) :
  detectPeaks data threshold minDistance
  = fold_left (peakStep data threshold minDistance)
              (seq 1 (List.length data - 1 - 1)) [].
Proof. reflexivity. Qed.

Lemma peakCond_reals (xs : list R) (t : R) (i : nat) :
  (1 <= i)%nat -> (i + 1 < List.length xs)%nat ->
  peakCond (reals xs) (Fin t) i = true <-> strictPeak xs t i.
Proof.
  intros H1 H2. unfold peakCond, strictPeak.
  rewrite !nth_reals by lia. cbn [toNumber]. unfold gtb, ltb.
  destruct (Rlt_dec (nth (i - 1) xs 0) (nth i xs 0));
    destruct (Rlt_dec (nth (i + 1) xs 0) (nth i xs 0));
    destruct (Rlt_dec t (nth i xs 0)); cbn; intuition (try discriminate).
Qed.

Lemma spaced_snoc (d : Z) (i : nat) :
  forall peaks : list nat,
    spaced d peaks ->
    (forall last rest,
        rev peaks = last :: rest ->
        (last < i)%nat /\ (d <= Z.of_nat i - Z.of_nat last)%Z) ->
    spaced d (peaks ++ [i]).
Proof.
  induction peaks as [| p peaks IH]; intros Hs Hlast.
  - exact I.
  - destruct peaks as [| q r].
    + destruct (Hlast p [] eq_refl) as [Hlt Hd]. cbn. tauto.
    + destruct Hs as (Hpq & Hd & Hs).
      change (spaced d (p :: q :: (r ++ [i]))).
      cbn [spaced]. split; [exact Hpq |]. split; [exact Hd |].
      apply (IH Hs). intros last rest E.
      apply (Hlast last (rest ++ [p])).
      change (rev (p :: q :: r)) with (rev (q :: r) ++ [p]).
      now rewrite E.
Qed.

Lemma rev_head_In (A : Type) (l : list A) (last : A) (rest : list A) :
  rev l = last :: rest -> In last l.
Proof.
  intros E. apply in_rev. rewrite E. now left.
Qed.

(** What the loop keeps true: every recorded index is a strict peak below
    the position the loop has reached, and the indices are spaced. *)
Lemma peakStep_invariant (xs : list R) (t : R) (d : Z) :
  forall (k s : nat) (peaks : list nat),
    (1 <= s)%nat -> (s + k + 1 <= List.length xs)%nat ->
    Forall (fun p => (1 <= p < s)%nat /\ strictPeak xs t p) peaks ->
    spaced d peaks ->
    Forall (fun p => (1 <= p < s + k)%nat /\ strictPeak xs t p)
           (fold_left (peakStep (reals xs) (Fin t) d) (seq s k) peaks)
    /\ spaced d (fold_left (peakStep (reals xs) (Fin t) d) (seq s k) peaks).
Proof.
  induction k as [| k IH]; intros s peaks Hs Hn Hall Hsp.
  - cbn [seq fold_left]. split; [| exact Hsp].
    eapply Forall_impl; [| exact Hall]. cbn. intros p [? ?]. split; [lia | tauto].
  - cbn [seq fold_left].
    assert (Hwide : Forall (fun p => (1 <= p < S s)%nat /\ strictPeak xs t p)
                           peaks).
    { eapply Forall_impl; [| exact Hall]. cbn. intros p [? ?].
      split; [lia | tauto]. }
    assert (Hpush : peakCond (reals xs) (Fin t) s = true ->
                    Forall (fun p => (1 <= p < S s)%nat /\ strictPeak xs t p)
                           (peaks ++ [s])).
    { intros Hc. apply Forall_app. split; [exact Hwide |].
      constructor; [| constructor]. split; [lia |].
      apply peakCond_reals; [lia | lia | exact Hc]. }
    replace (s + S k)%nat with (S s + k)%nat by lia.
    unfold peakStep at 2 4.
    destruct (peakCond (reals xs) (Fin t) s) eqn:Hc.
    + destruct (rev peaks) as [| last rest] eqn:Hrev.
      * apply IH; [lia | lia | now apply Hpush |].
        apply spaced_snoc; [exact Hsp |]. rewrite Hrev. discriminate.
      * destruct (d <=? Z.of_nat s - Z.of_nat last)%Z eqn:Hd.
        -- apply IH; [lia | lia | now apply Hpush |].
           apply spaced_snoc; [exact Hsp |]. rewrite Hrev.
           intros last' rest' E. injection E as <- <-.
           apply rev_head_In in Hrev.
           rewrite Forall_forall in Hall. destruct (Hall _ Hrev) as [? _].
           split; [lia |]. now apply Z.leb_le.
        -- apply IH; [lia | lia | exact Hwide | exact Hsp].
    + apply IH; [lia | lia | exact Hwide | exact Hsp].
Qed.

(** With a minimal distance of at most 1 the distance test never fails. *)
Lemma peakStep_filter (data : array) (threshold : num) (d : Z) :
  (d <= 1)%Z ->
  forall (k s : nat) (peaks : list nat),
    Forall (fun p => (p < s)%nat) peaks ->
    fold_left (peakStep data threshold d) (seq s k) peaks
    = peaks ++ filter (peakCond data threshold) (seq s k).
Proof.
  intros Hd. induction k as [| k IH]; intros s peaks Hall.
  - cbn. now rewrite app_nil_r.
  - cbn [seq fold_left filter].
    assert (Hwide : Forall (fun p => (p < S s)%nat) peaks).
    { eapply Forall_impl; [| exact Hall]. cbn. lia. }
    unfold peakStep at 2.
    destruct (peakCond data threshold s) eqn:Hc.
    + assert (Hpush : fold_left (peakStep data threshold d) (seq (S s) k)
                                (peaks ++ [s])
                      = peaks ++ s :: filter (peakCond data threshold)
                                             (seq (S s) k)).
      { rewrite IH.
        - now rewrite <- app_assoc.
        - apply Forall_app. split; [exact Hwide |].
          constructor; [lia | constructor]. }
      destruct (rev peaks) as [| last rest] eqn:Hrev; [exact Hpush |].
      apply rev_head_In in Hrev.
      rewrite Forall_forall in Hall. pose proof (Hall _ Hrev) as Hlt.
      replace (d <=? Z.of_nat s - Z.of_nat last)%Z with true
        by (symmetry; apply Z.leb_le; lia).
      exact Hpush.
    + now apply IH.
Qed.

(** X23. On an array of reals and a real threshold, every index
    [detectPeaks] returns is an interior position whose element is above
    both neighbours and above the threshold; the indices are increasing
    and two consecutive ones are at least the minimal distance apart.
    With a minimal distance of at most 1 (the default) every such position
    is returned. *)
Theorem detectPeaks_spaced_strict_maxima (xs : list R) (t : R) (d : Z) :
  (forall i : nat,
      In i (detectPeaks (reals xs) (Fin t) d) ->
      (1 <= i)%nat /\ (i + 1 < List.length xs)%nat /\ strictPeak xs t i)
  /\ spaced d (detectPeaks (reals xs) (Fin t) d)
  /\ ((d <= 1)%Z ->
      forall i : nat,
        (1 <= i)%nat -> (i + 1 < List.length xs)%nat -> strictPeak xs t i ->
        In i (detectPeaks (reals xs) (Fin t) d)).
Proof.
  rewrite detectPeaks_unfold, reals_length.
  destruct (le_lt_dec (List.length xs) 1) as [Hshort | Hlong].
  - replace (List.length xs - 1 - 1)%nat with 0%nat by lia.
    cbn [seq fold_left]. split; [intros i [] |]. split; [exact I |].
    intros _ i H1 H2. lia.
  - destruct (peakStep_invariant xs t d (List.length xs - 1 - 1) 1 [])
      as [Hall Hsp]; [lia | lia | constructor | exact I |].
    split; [| split].
    + intros i Hi. rewrite Forall_forall in Hall.
      destruct (Hall i Hi) as [Hb Hp]. split; [lia |]. split; [lia | exact Hp].
    + exact Hsp.
    + intros Hd i H1 H2 Hp.
      rewrite (peakStep_filter (reals xs) (Fin t) d Hd) by constructor.
      cbn [app]. apply filter_In. split.
      * apply in_seq. lia.
      * apply peakCond_reals; assumption.
Qed.

Lemma detectPeaks_spaced_strict_maxima_witness :
  In 1%nat (detectPeaks (reals [1; 3; 2]) (Fin 0) 1).
Proof.
  apply (proj2 (proj2 (detectPeaks_spaced_strict_maxima [1; 3; 2] 0 1)));
    [lia | lia | cbn; lia |].
  unfold strictPeak. cbn. lra.
Defined.

End SeriesPeaks.

(** ** The binomial test *)

Section Binomial.
Import Correlations.
















End Binomial.

(** ** Significance of a correlation *)

Section Significance.
Import Correlations.








End Significance.

(** ** Synodic periods *)

Section Synodic.
Import FTRT.








End Synodic.

(** ** Alignment score *)

Section Alignment.
Import DateHelpers FTRT.

Lemma calculateAlignmentScore_unfold (date : Date) :
  calculateAlignmentScore date
  = alignmentOf (planetAngles (Fin (IZR (dateToJulianDay date)))).
Proof. reflexivity. Qed.

Lemma all_Fin (l : list num) :
  Forall (fun x => exists r, x = Fin r) l -> exists rs, l = map Fin rs.
Proof.
  induction 1 as [| x l [r ->] _ [rs ->]].
  - now exists [].
  - now exists (r :: rs).
Qed.

Lemma planetAngles_reals (jd : R) :
  exists rs : list R,
    planetAngles (Fin jd) = map Fin rs /\ List.length rs = 8%nat.
Proof.
  assert (H : Forall (fun x => exists r, x = Fin r) (planetAngles (Fin jd))).
  { unfold planetAngles. apply Forall_map, Forall_forall. intros k Hk.
    destruct (prop_In _ PLANETS k Hk) as (p & -> & Hrow).
    pose proof PLANETS_physical as Hph. rewrite Forall_forall in Hph.
    destruct (Hph _ Hrow) as (_ & _ & Hper). cbn [snd] in Hper.
    cbn [mul]. rewrite div_Fin by exact Hper. unfold rem.
    destruct (Req_dec_T (2 * PI) 0) as [E | _].
    - pose proof PI_RGT_0. lra.
    - eexists. reflexivity. }
  destruct (all_Fin _ H) as [rs Hrs]. exists rs. split; [exact Hrs |].
  apply (f_equal (@List.length num)) in Hrs.
  rewrite length_map in Hrs. rewrite <- Hrs.
  unfold planetAngles. rewrite length_map. reflexivity.
Qed.

Lemma fold_add_Fin (rs : list R) :
  forall a : R,
    fold_left (fun sum angle => add sum angle) (map Fin rs) (Fin a)
    = Fin (a + Rsum rs).
Proof.
  unfold Rsum. induction rs as [| r rs IH]; intros a; cbn [map fold_left].
  - cbn. f_equal. lra.
  - cbn [add]. rewrite IH. cbn [fold_right]. f_equal. lra.
Qed.

Lemma fold_square_Fin (m : R) (rs : list R) :
  forall a : R,
    fold_left (fun sum angle => add sum (Math_pow (sub angle (Fin m)) 2))
              (map Fin rs) (Fin a)
    = Fin (a + Rsq m rs).
Proof.
  unfold Rsq, Rsum. induction rs as [| r rs IH]; intros a; cbn [map fold_left].
  - cbn. f_equal. lra.
  - cbn [sub neg add Math_pow]. rewrite IH. cbn [fold_right]. f_equal.
    unfold Rminus. simpl pow. lra.
Qed.

Lemma alignmentOf_reals (rs : list R) :
  rs <> [] ->
  alignmentOf (map Fin rs)
  = let d := Rsq (Rmean rs) rs / INR (List.length rs) in
    let s := 1 - sqrt d / PI in
    mkAlignment (Fin (Rmax 0 (Rmin 1 s))) (Fin (Rmean rs)) (Fin d)
      (if Rlt_dec 0.7 s then "High alignment"
       else if Rlt_dec 0.5 s then "Moderate alignment"
       else "Low alignment").
Proof.
  intros Hne.
  assert (Hn : INR (List.length rs) <> 0).
  { apply not_0_INR. destruct rs; [contradiction | discriminate]. }
  unfold alignmentOf. rewrite length_map, fold_add_Fin.
  rewrite div_Fin by exact Hn. rewrite Rplus_0_l. fold (Rmean rs).
  rewrite fold_square_Fin, div_Fin by exact Hn. rewrite Rplus_0_l.
  assert (Hd : 0 <= Rsq (Rmean rs) rs / INR (List.length rs)).
  { apply Rmult_le_pos; [apply Rsq_nonneg |]. left.
    apply Rinv_0_lt_compat. pose proof (pos_INR (List.length rs)). lra. }
  rewrite sqrt_Fin by exact Hd.
  rewrite div_Fin by (pose proof PI_RGT_0; lra).
  cbn [sub neg add]. rewrite min2_Fin, max2_Fin.
  cbv zeta. unfold gtb, ltb, Rminus.
  destruct (Rlt_dec 0.7 _); [reflexivity |].
  destruct (Rlt_dec 0.5 _); reflexivity.
Qed.

(** X28. For every date [calculateAlignmentScore] returns a real score in
    [0, 1], a real mean angle and a real dispersion that is not negative;
    the score is the greater of 0 and [1 - sqrt(dispersion) / pi], and the
    interpretation is "High alignment" exactly when the score is above
    0.7. *)
Theorem calculateAlignmentScore_score_in_unit_interval (date : Date) :
  exists sc m d : R,
    score (calculateAlignmentScore date) = Fin sc
    /\ meanAngle (calculateAlignmentScore date) = Fin m
    /\ dispersion (calculateAlignmentScore date) = Fin d
    /\ 0 <= d
    /\ sc = Rmax 0 (1 - sqrt d / PI)
    /\ 0 <= sc <= 1
    /\ (alignment_interpretation (calculateAlignmentScore date)
        = "High alignment"%string <-> 0.7 < sc).
Proof.
  rewrite calculateAlignmentScore_unfold.
  destruct (planetAngles_reals (IZR (dateToJulianDay date)))
    as (rs & -> & Hlen).
  assert (Hne : rs <> []) by (intros ->; discriminate).
  rewrite alignmentOf_reals by exact Hne. cbv zeta.
  cbn [score meanAngle dispersion alignment_interpretation].
  set (d := Rsq (Rmean rs) rs / INR (List.length rs)).
  assert (Hd : 0 <= d).
  { apply Rmult_le_pos; [apply Rsq_nonneg |]. left.
    apply Rinv_0_lt_compat. rewrite Hlen. cbn [INR]. lra. }
  assert (Hs : 0 <= sqrt d / PI).
  { apply Rmult_le_pos; [apply sqrt_pos |]. left.
    apply Rinv_0_lt_compat. apply PI_RGT_0. }
  assert (Hmin : Rmin 1 (1 - sqrt d / PI) = 1 - sqrt d / PI)
    by (apply Rmin_right; lra).
  exists (Rmax 0 (1 - sqrt d / PI)), (Rmean rs), d.
  rewrite Hmin. repeat (split; [reflexivity |]).
  split; [exact Hd |]. split; [reflexivity |].
  split.
  - split; [apply Rmax_l |]. apply Rmax_lub; lra.
  - destruct (Rlt_dec 0.7 (1 - sqrt d / PI)) as [H | H].
    + split; [intros _ | reflexivity].
      eapply Rlt_le_trans; [exact H | apply Rmax_r].
    + split.
      * destruct (Rlt_dec 0.5 (1 - sqrt d / PI)); discriminate.
      * intros Hsc. exfalso. apply H.
        unfold Rmax in Hsc.
        destruct (Rle_dec 0 (1 - sqrt d / PI)); lra.
Qed.

End Alignment.

(** ** Julian days of the whole calendar *)

Section JulianCalendar.
Import DateHelpers.
Local Open Scope Z_scope.

(** The calendar repeats every 400 years, which are 146097 days. *)
Lemma isLeap_shift (Y k : Z) : isLeap (Y + 400 * k) = isLeap Y.
Proof.
  unfold isLeap.
  assert (E4 : (Y + 400 * k) mod 4 = Y mod 4).
  { replace (Y + 400 * k) with (Y + 100 * k * 4) by ring.
    apply Z_mod_plus_full. }
  assert (E100 : (Y + 400 * k) mod 100 = Y mod 100).
  { replace (Y + 400 * k) with (Y + 4 * k * 100) by ring.
    apply Z_mod_plus_full. }
  assert (E400 : (Y + 400 * k) mod 400 = Y mod 400).
  { replace (Y + 400 * k) with (Y + k * 400) by ring.
    apply Z_mod_plus_full. }
  now rewrite E4, E100, E400.
Qed.

Lemma validDate_shift (Y M D k : Z) :
  validDate (mkDate Y M D) -> validDate (mkDate (Y + 400 * k) M D).
Proof.
  unfold validDate, daysInMonth. cbn [getFullYear getMonth getDate].
  now rewrite isLeap_shift.
Qed.

Lemma dateToJulianDay_shift (Y M D k : Z) :
  dateToJulianDay (mkDate (Y + 400 * k) M D)
  = dateToJulianDay (mkDate Y M D) + 146097 * k.
Proof.
  unfold dateToJulianDay. cbn [getFullYear getMonth getDate]. cbv zeta.
  set (a := (14 - (M + 1)) / 12).
  set (m := (153 * (M + 1 + 12 * a - 3) + 2) / 5).
  replace (Y + 400 * k + 4800 - a) with (Y + 4800 - a + 400 * k) by ring.
  set (y := Y + 4800 - a).
  assert (E4 : (y + 400 * k) / 4 = y / 4 + 100 * k).
  { replace (y + 400 * k) with (y + 100 * k * 4) by ring.
    apply Z_div_plus_full. lia. }
  assert (E100 : (y + 400 * k) / 100 = y / 100 + 4 * k).
  { replace (y + 400 * k) with (y + 4 * k * 100) by ring.
    apply Z_div_plus_full. lia. }
  assert (E400 : (y + 400 * k) / 400 = y / 400 + k).
  { replace (y + 400 * k) with (y + k * 400) by ring.
    apply Z_div_plus_full. lia. }
  rewrite E4, E100, E400. ring.
Qed.

Lemma dateToJulianDay_injective (d d' : Date) :
  validDate d -> validDate d' ->
  dateToJulianDay d' = dateToJulianDay d -> d' = d.
Proof.
  destruct d as [Y M D], d' as [Y' M' D']. intros Hv Hv' E.
  set (k := Z.abs Y + Z.abs Y' + 1).
  assert (Hs : julianDayToDate (dateToJulianDay (mkDate (Y + 400 * k) M D))
               = mkDate (Y + 400 * k) M D).
  { apply julianDay_roundtrip; [now apply validDate_shift |].
    cbn [getFullYear]. lia. }
  assert (Hs' : julianDayToDate (dateToJulianDay (mkDate (Y' + 400 * k) M' D'))
                = mkDate (Y' + 400 * k) M' D').
  { apply julianDay_roundtrip; [now apply validDate_shift |].
    cbn [getFullYear]. lia. }
  rewrite dateToJulianDay_shift in Hs, Hs'. rewrite E in Hs'.
  rewrite Hs in Hs'. injection Hs' as EY -> ->. f_equal. lia.
Qed.

(** X29. On the dates of the calendar [dateToJulianDay] is one-to-one, for
    every year.  [julianDayToDate] gives back the date whose Julian day it
    is given when the year is not one of 0 to 99; for those years it gives
    a date of the year 1900 later. *)
Theorem dateToJulianDay_one_to_one_and_inverted (d : Date) :
  validDate d ->
  (~ 0 <= getFullYear d <= 99 -> julianDayToDate (dateToJulianDay d) = d)
  /\ (0 <= getFullYear d <= 99 ->
      getFullYear (julianDayToDate (dateToJulianDay d))
      = 1900 + getFullYear d)
  /\ (forall d' : Date,
         validDate d' -> dateToJulianDay d' = dateToJulianDay d -> d' = d).
Proof.
  intros Hv. split; [| split].
  - now apply julianDay_roundtrip.
  - now apply julianDay_roundtrip_century.
  - intros d' Hv'. now apply dateToJulianDay_injective.
Qed.

Lemma dateToJulianDay_one_to_one_and_inverted_witness :
  julianDayToDate (dateToJulianDay (mkDate 2024 1 29)) = mkDate 2024 1 29.
Proof.
  refine (proj1 (dateToJulianDay_one_to_one_and_inverted (mkDate 2024 1 29) _)
                _).
  - unfold validDate. cbn. lia.
  - cbn. lia.
Defined.

End JulianCalendar.

(** ** Geological periods *)

Section GeologicalPeriods.
Import DateHelpers.

Lemma inPeriod_reals (a : R) (p : geologicalPeriod) :
  geb (Fin a) (Fin (period_start p)) && ltb (Fin a) (Fin (period_end p))
  = true
  <-> period_start p <= a < period_end p.
Proof.
  unfold geb, ltb.
  destruct (Rlt_dec a (period_start p)), (Rlt_dec a (period_end p));
    cbn; split; intros H; try discriminate; try reflexivity; lra.
Qed.

Lemma periods_range :
  Forall (fun p => 0 <= period_start p /\ period_end p <= 541) periods.
Proof.
  unfold periods.
  repeat (apply Forall_cons; [cbn [period_start period_end]; lra |]).
  apply Forall_nil.
Qed.

Lemma periods_cover (a : R) :
  0 <= a < 541 ->
  exists p, In p periods /\ period_start p <= a < period_end p.
Proof.
  intros Ha. unfold periods.
  destruct (Rlt_dec a 2.6); [eexists; split; [left; reflexivity | cbn; lra] |].
  destruct (Rlt_dec a 23);
    [eexists; split; [do 1 right; left; reflexivity | cbn; lra] |].
  destruct (Rlt_dec a 66);
    [eexists; split; [do 2 right; left; reflexivity | cbn; lra] |].
  destruct (Rlt_dec a 145);
    [eexists; split; [do 3 right; left; reflexivity | cbn; lra] |].
  destruct (Rlt_dec a 201);
    [eexists; split; [do 4 right; left; reflexivity | cbn; lra] |].
  destruct (Rlt_dec a 252);
    [eexists; split; [do 5 right; left; reflexivity | cbn; lra] |].
  destruct (Rlt_dec a 299);
    [eexists; split; [do 6 right; left; reflexivity | cbn; lra] |].
  destruct (Rlt_dec a 359);
    [eexists; split; [do 7 right; left; reflexivity | cbn; lra] |].
  destruct (Rlt_dec a 419);
    [eexists; split; [do 8 right; left; reflexivity | cbn; lra] |].
  destruct (Rlt_dec a 444);
    [eexists; split; [do 9 right; left; reflexivity | cbn; lra] |].
  destruct (Rlt_dec a 485);
    [eexists; split; [do 10 right; left; reflexivity | cbn; lra] |].
  eexists; split; [do 11 right; left; reflexivity | cbn; lra].
Qed.

(** Two periods of the table that hold one age are the same period. *)
Lemma periods_disjoint (a : R) (p q : geologicalPeriod) :
  In p periods -> In q periods ->
  period_start p <= a < period_end p ->
  period_start q <= a < period_end q -> p = q.
Proof.
  unfold periods. cbn [In]. intros Hp Hq.
  repeat (destruct Hp as [<- | Hp]); try contradiction;
    repeat (destruct Hq as [<- | Hq]); try contradiction;
    cbn [period_start period_end]; intros H1 H2;
    try reflexivity; exfalso; lra.
Qed.

Lemma getGeologicalPeriod_Some (a : R) (p : geologicalPeriod) :
  getGeologicalPeriod (Fin a) = Some p
  <-> In p periods /\ period_start p <= a < period_end p.
Proof.
  unfold getGeologicalPeriod. split.
  - intros H. apply find_some in H. destruct H as [Hin Hp].
    split; [exact Hin |]. now apply inPeriod_reals.
  - intros [Hin Hp].
    destruct (find _ periods) as [q |] eqn:E.
    + apply find_some in E. destruct E as [Hq Hq'].
      apply inPeriod_reals in Hq'. f_equal.
      now apply (periods_disjoint a).
    + exfalso. pose proof (find_none _ _ E p Hin) as Hnone. cbv beta in Hnone.
      apply inPeriod_reals in Hp. rewrite Hp in Hnone. discriminate.
Qed.

(** X30. The periods of [getGeologicalPeriod] divide the ages from 0 up to
    541 Ma: for a real age the function returns a period exactly when the
    age is in that range, the period returned is the one period of the
    table whose bounds hold the age (the start counted in, the end not),
    and the result is null for NaN.  Two ages [isSamePeriod] accepts lie
    between the bounds of one period. *)
Theorem getGeologicalPeriod_partition :
  (forall (a : R) (p : geologicalPeriod),
      getGeologicalPeriod (Fin a) = Some p
      <-> In p periods /\ period_start p <= a < period_end p) /\
  (forall a : R,
      (exists p, getGeologicalPeriod (Fin a) = Some p) <-> 0 <= a < 541) /\
  getGeologicalPeriod NaN = None /\
  (forall a b : R,
      isSamePeriod (Fin a) (Fin b) = Some true ->
      exists p,
        In p periods
        /\ period_start p <= a < period_end p
        /\ period_start p <= b < period_end p).
Proof.
  split; [exact getGeologicalPeriod_Some |]. split; [| split].
  - intros a. split.
    + intros [p Hp]. apply getGeologicalPeriod_Some in Hp.
      destruct Hp as [Hin Hp].
      pose proof periods_range as Hr. rewrite Forall_forall in Hr.
      destruct (Hr p Hin). lra.
    + intros Ha. destruct (periods_cover a Ha) as (p & Hin & Hp).
      exists p. now apply getGeologicalPeriod_Some.
  - reflexivity.
  - intros a b H. unfold isSamePeriod in H.
    destruct (getGeologicalPeriod (Fin a)) as [p |] eqn:Ea; [| discriminate].
    destruct (getGeologicalPeriod (Fin b)) as [q |] eqn:Eb; [| discriminate].
    apply getGeologicalPeriod_Some in Ea, Eb.
    destruct Ea as [Hp Ha], Eb as [Hq Hb].
    injection H as H. apply String.eqb_eq in H.
    assert (E : p = q).
    { revert Hp Hq H. unfold periods. cbn [In]. intros Hp Hq.
      repeat (destruct Hp as [<- | Hp]); try contradiction;
        repeat (destruct Hq as [<- | Hq]); try contradiction;
        cbn [period_name]; intros H; try reflexivity; discriminate. }
    subst q. exists p. tauto.
Qed.

Lemma getGeologicalPeriod_partition_witness :
  exists p,
    In p periods
    /\ period_start p <= 100 < period_end p
    /\ period_start p <= 120 < period_end p.
Proof.
  apply (proj2 (proj2 (proj2 getGeologicalPeriod_partition)) 100 120).
  unfold isSamePeriod.
  rewrite (proj2 (proj1 getGeologicalPeriod_partition 100
                    (mkPeriod "Cretácico" 66 145)))
    by (split; [unfold periods; do 3 right; left; reflexivity | cbn; lra]).
  rewrite (proj2 (proj1 getGeologicalPeriod_partition 120
                    (mkPeriod "Cretácico" 66 145)))
    by (split; [unfold periods; do 3 right; left; reflexivity | cbn; lra]).
  reflexivity.
Defined.

End GeologicalPeriods.
